(** * purruyura: a blackjack game between one player and the dealer

    A shallow embedding of [purruyura.py].  Python lists are Rocq lists in
    the same order (index 0 is the head, [append] adds at the end, [pop]
    removes the last element); Python integers are [Z]; strings are
    [string], one character per code point below 256.  Each class is a
    module; a method takes its receiver as [self] and returns the updated
    receiver.  The deck object that both players reference ([Player.deck])
    is a single value owned by the game and passed to the player methods,
    so that what one player does to it is what the other one sees.
    Exceptions are the [Raise] outcome of [result]; the generator behind
    [random.shuffle] is an explicit tape of draws. *)

From stdpp Require Import base list strings pretty numbers.

Open Scope Z_scope.

(** ** Outcomes of a call *)

Inductive exn : Set :=
| IndexError   (* pop from empty list *)
| TypeError.   (* __str__ returned non-string *)

Inductive result (A : Type) : Type :=
| Ok (a : A)
| Raise (e : exn)
| Diverge.     (* a loop that used up its fuel; shown unreachable below *)

Arguments Ok {A} a.
Arguments Raise {A} e.
Arguments Diverge {A}.

(** Sequencing: the first exception ends the call.  With these instances
    [x ← m; k] runs [m] and passes its value to [k]. *)
#[export] Instance result_ret : MRet result := @Ok.
#[export] Instance result_bind : MBind result := λ A B k m,
  match m with
  | Ok a => k a
  | Raise e => Raise e
  | Diverge => Diverge
  end.

(** ** Python's list.pop() and the module-level random generator *)

Section ListPop.
Context {A : Type}.

(** [l.pop()]: the last element and the list without it; [None] stands
    for the IndexError of an empty list. *)
Fixpoint pop (l : list A) : option (A * list A) :=
  match l with
  | [] => None
  | x :: l' =>
      match pop l' with
      | None => Some (x, [])
      | Some (c, r) => Some (c, x :: r)
      end
  end.

(** [x[i], x[j] = x[j], x[i]]: the right-hand side is read first, then
    [x[i]] and [x[j]] are assigned in that order. *)
Definition swap (i j : nat) (x : list A) : list A :=
  match x !! i, x !! j with
  | Some a, Some b => <[j:=a]> (<[i:=b]> x)
  | _, _ => x
  end.
End ListPop.

Module Random.
(** The state of the generator: an infinite tape of draws and the
    position of the next one. *)
Record t : Type := mk { tape : nat → nat; cursor : nat }.

(** [randbelow(n)]: a number in [0, n), for n > 0. *)
Definition randbelow (n : nat) (r : t) : nat * t :=
  ((tape r (cursor r) mod n)%nat, mk (tape r) (S (cursor r))).

(** The loop of [random.shuffle]:
    [for i in reversed(range(1, len(x))): j = randbelow(i + 1); swap]. *)
Fixpoint shuffle_from {A} (i : nat) (x : list A) (r : t) : list A * t :=
  match i with
  | O => (x, r)
  | S i' =>
      let '(j, r') := randbelow (S i) r in
      shuffle_from i' (swap i j x) r'
  end.

Definition shuffle {A} (x : list A) (r : t) : list A * t :=
  shuffle_from (length x - 1)%nat x r.
End Random.

(** ** class Card *)

Module Card.
Record t : Type := mk { suit : string; rank : Z; value : Z }.

(** [Card.__init__] *)
Definition __init__ (suit : string) (rank : Z) : t :=
  {| suit := suit;
     rank := rank;
     value := if (rank >? 1) && (rank <? 11) then rank else 10 |}.

(** [Card.__str__]; [None] is Python's None, returned when no branch of
    the chain matches. *)
Definition __str__ (self : t) : option string :=
  if (rank self >? 1) && (rank self <? 11) then
    Some (pretty (rank self) +:+ " of " +:+ suit self)
  else if rank self =? 1 then Some ("Ace of " +:+ suit self)
  else if rank self =? 11 then Some ("Jack of " +:+ suit self)
  else if rank self =? 12 then Some ("Queen of " +:+ suit self)
  else if rank self =? 13 then Some ("King of " +:+ suit self)
  else None.

(** [str(card)]: a [__str__] that returns None makes [str] raise. *)
Definition str (self : t) : result string :=
  match __str__ self with
  | Some s => Ok s
  | None => Raise TypeError
  end.

(** What a card can be compared with: a card, or an object of another
    type. *)
Inductive object : Type :=
| card (c : t)
| other.

(** [Card.__eq__]: an object of the same type is equal when the attribute
    dictionaries ([suit], [rank], [value]) are; any other object is not. *)
Definition __eq__ (self : t) (o : object) : bool :=
  match o with
  | card c =>
      String.eqb (suit self) (suit c) && (rank self =? rank c) && (value self =? value c)
  | other => false
  end.

(** [Card.__ne__] *)
Definition __ne__ (self : t) (o : object) : bool := negb (__eq__ self o).

#[global] Instance eq_dec : EqDecision t.
Proof. solve_decision. Defined.
End Card.

(** ** class CardDeck *)

Module CardDeck.
Record t : Type := mk { deck : list Card.t; discard : list Card.t }.

(** [CardDeck.__init__] *)
Definition __init__ : t := {| deck := []; discard := [] |}.

(** [range(1, 14)] *)
Definition ranks : list Z := [1; 2; 3; 4; 5; 6; 7; 8; 9; 10; 11; 12; 13].

(** [CardDeck._append_suit_to_deck] *)
Definition _append_suit_to_deck (self : t) (suit : string) : t :=
  fold_left
    (fun self i =>
       {| deck := deck self ++ [Card.__init__ suit i]; discard := discard self |})
    ranks self.

(** [CardDeck.create_unshuffled_deck] *)
Definition create_unshuffled_deck (self : t) : t :=
  let self := _append_suit_to_deck self "Diamonds" in
  let self := _append_suit_to_deck self "Spades" in
  let self := _append_suit_to_deck self "Hearts" in
  _append_suit_to_deck self "Clubs".

(** [CardDeck.shuffle_deck] *)
Definition shuffle_deck (self : t) (r : Random.t) : t * Random.t :=
  let '(d, r') := Random.shuffle (deck self) r in
  ({| deck := d; discard := discard self |}, r').

(** [CardDeck.deal_card] *)
Definition deal_card (self : t) : result (Card.t * t) :=
  match pop (deck self) with
  | None => Raise IndexError
  | Some (c, d) => Ok (c, {| deck := d; discard := discard self |})
  end.

(** [CardDeck.shuffle_in_discards] *)
Definition shuffle_in_discards (self : t) (r : Random.t) : t * Random.t :=
  let self := {| deck := deck self ++ discard self; discard := discard self |} in
  let self := {| deck := deck self; discard := [] |} in
  shuffle_deck self r.

(** [CardDeck.__len__] *)
Definition __len__ (self : t) : Z := Z.of_nat (length (deck self)).
End CardDeck.

(** ** class Player *)

Module Player.
(** The [deck] attribute is a reference to the deck of the game; the
    methods that use it take the deck and give it back. *)
Record t : Type := mk { hand : list Card.t; score : Z }.

(** [Player.__init__] *)
Definition __init__ : t := {| hand := []; score := 0 |}.

(** [Player.total_hand] *)
Definition total_hand (self : t) : Z :=
  let total := fold_left (fun total card => total + Card.value card) (hand self) 0 in
  if total >? 21 then
    fold_left
      (fun total card => if Card.rank card =? 1 then total - 9 else total)
      (hand self) total
  else total.

Definition append_hand (self : t) (c : Card.t) : t :=
  {| hand := hand self ++ [c]; score := score self |}.

(** [Player.hit] *)
Definition hit (self : t) (deck : CardDeck.t) (r : Random.t)
  : result (t * CardDeck.t * Random.t) :=
  if CardDeck.__len__ deck >? 0 then
    '(c, deck) ← CardDeck.deal_card deck;
    Ok (append_hand self c, deck, r)
  else
    let '(deck, r) := CardDeck.shuffle_in_discards deck r in
    '(c, deck) ← CardDeck.deal_card deck;
    Ok (append_hand self c, deck, r).

(** [Player.discard] *)
Definition discard (self : t) (deck : CardDeck.t) : t * CardDeck.t :=
  let deck :=
    {| CardDeck.deck := CardDeck.deck deck;
       CardDeck.discard := CardDeck.discard deck ++ hand self |} in
  ({| hand := []; score := score self |}, deck).

(** [result[:-2]] *)
Definition drop_last2 (s : string) : string :=
  String.substring 0 (String.length s - 2) s.

(** [Player.print_friendly_hand] *)
Definition print_friendly_hand (self : t) : result string :=
  text ←
    fold_left
      (fun acc card =>
         text ← acc;
         s ← Card.str card;
         Ok (text +:+ s +:+ ", "))
      (hand self) (Ok "");
  Ok (drop_last2 text).
End Player.

(** ** class _BlackJackGame *)

Module _BlackJackGame.
(** The attributes of the game object, together with the two pieces of
    process state its methods touch: the generator of [random] and the
    lines written to standard output. *)
Record t : Type := mk {
  cd : CardDeck.t;
  p1 : Player.t;      (* the dealer *)
  p2 : Player.t;      (* the player *)
  playing : bool;
  quitting : bool;
  random : Random.t;
  stdout : list string
}.

Definition set_players (p1 p2 : Player.t) (cd : CardDeck.t) (r : Random.t) (self : t) : t :=
  mk cd p1 p2 (playing self) (quitting self) r (stdout self).
Definition set_playing (b : bool) (self : t) : t :=
  mk (cd self) (p1 self) (p2 self) b (quitting self) (random self) (stdout self).
Definition set_quitting (b : bool) (self : t) : t :=
  mk (cd self) (p1 self) (p2 self) (playing self) b (random self) (stdout self).
Definition print (s : string) (self : t) : t :=
  mk (cd self) (p1 self) (p2 self) (playing self) (quitting self) (random self)
     (stdout self ++ [s]).

(** [self.p1.score += 1] and [self.p2.score += 1] *)
Definition incr_score (p : Player.t) : Player.t :=
  {| Player.hand := Player.hand p; Player.score := Player.score p + 1 |}.
Definition p1_wins (self : t) : t :=
  mk (cd self) (incr_score (p1 self)) (p2 self) (playing self) (quitting self)
     (random self) (stdout self).
Definition p2_wins (self : t) : t :=
  mk (cd self) (p1 self) (incr_score (p2 self)) (playing self) (quitting self)
     (random self) (stdout self).

(** [print(p.print_friendly_hand())] *)
Definition print_hand (p : Player.t) (self : t) : result t :=
  s ← Player.print_friendly_hand p;
  Ok (print s self).

(** [_BlackJackGame.start_game] *)
Definition start_game (self : t) : result t :=
  '(p1, cd, r) ← Player.hit (p1 self) (cd self) (random self);
  '(p2, cd, r) ← Player.hit (p2 self) cd r;
  '(p1, cd, r) ← Player.hit p1 cd r;
  '(p2, cd, r) ← Player.hit p2 cd r;
  let self := set_players p1 p2 cd r self in
  let self := print "Dealer's hand" self in
  self ← print_hand (_BlackJackGame.p1 self) self;
  let self := print ("Total Val: " +:+ pretty (Player.total_hand (_BlackJackGame.p1 self))) self in
  let self := print "Player's hand" self in
  self ← print_hand (_BlackJackGame.p2 self) self;
  let self := print ("Total Val: " +:+ pretty (Player.total_hand (_BlackJackGame.p2 self))) self in
  let self := set_playing true self in
  Ok (set_quitting false self).

(** [_BlackJackGame.__init__]; [playing] and [quitting] do not exist
    before [start_game] sets them. *)
Definition __init__ (r : Random.t) : result t :=
  let cd := CardDeck.__init__ in
  let cd := CardDeck.create_unshuffled_deck cd in
  let '(cd, r) := CardDeck.shuffle_deck cd r in
  start_game (mk cd Player.__init__ Player.__init__ false false r []).

(** The value a [do_*] method returns, read as cmd.Cmd reads it: true
    stops the command loop. *)
Definition stop := bool.

(** [_BlackJackGame.do_hit] *)
Definition do_hit (self : t) : result (stop * t) :=
  let self := set_quitting false self in
  if playing self then
    '(p2, cd, r) ← Player.hit (p2 self) (cd self) (random self);
    let self := set_players (p1 self) p2 cd r self in
    if Player.total_hand (_BlackJackGame.p2 self) <=? 21 then
      let self := print "Player Hand: " self in
      self ← print_hand (_BlackJackGame.p2 self) self;
      let self := print ("Total val: " +:+ pretty (Player.total_hand (_BlackJackGame.p2 self))) self in
      Ok (false, self)
    else
      let self := print "Player Hand: " self in
      self ← print_hand (_BlackJackGame.p2 self) self;
      let self := print ("Total val: " +:+ pretty (Player.total_hand (_BlackJackGame.p2 self))) self in
      let self := print "Player busted, another round?" self in
      let self := p1_wins self in
      Ok (false, set_playing false self)
  else
    Ok (false, print "Start another game, yes/no?" self).

(** The loop of [do_pass]:
    [while self.p1.total_hand() < 18: self.p1.hand.append(self.cd.deal_card())].
    Every turn pops a card, so the length of the draw pile is fuel
    enough; [do_pass] passes that. *)
Fixpoint dealer_draws (fuel : nat) (p1 : Player.t) (cd : CardDeck.t)
  : result (Player.t * CardDeck.t) :=
  if Player.total_hand p1 <? 18 then
    '(c, cd) ← CardDeck.deal_card cd;
    match fuel with
    | O => Diverge
    | S fuel => dealer_draws fuel (Player.append_hand p1 c) cd
    end
  else Ok (p1, cd).

(** [_BlackJackGame.do_pass] *)
Definition do_pass (self : t) : result (stop * t) :=
  let self := set_quitting false self in
  '(p1, cd) ← dealer_draws (length (CardDeck.deck (cd self))) (p1 self) (cd self);
  let self := set_players p1 (p2 self) cd (random self) self in
  let self := print "Dealer's hand" self in
  self ← print_hand (_BlackJackGame.p1 self) self;
  let self := print (pretty (Player.total_hand (_BlackJackGame.p1 self))) self in
  let self := print "" self in
  let self :=
    if Player.total_hand (_BlackJackGame.p1 self) >? 21 then
      if Player.total_hand (p2 self) >? 21 then
        print "Tie, both busted" self
      else
        p2_wins (print "Player wins, dealer busted" self)
    else
      if Player.total_hand (_BlackJackGame.p1 self) >=? Player.total_hand (p2 self) then
        p1_wins (print "Dealer wins" self)
      else if Player.total_hand (p2 self) <=? 21 then
        p2_wins (print "Player wins" self)
      else
        p1_wins (print "Dealer Wins" self) in
  Ok (false, set_playing false self).

(** [_BlackJackGame.do_stand] *)
Definition do_stand (self : t) : result (stop * t) := do_pass self.

(** [do_pass] once more, this time with the object as the call leaves it
    beside what it returns or raises: Python keeps the assignments and the
    appends made before an exception, so an error in the loop leaves
    [quitting] reset and the cards drawn so far in the dealer's hand.
    [dealer_loop] is the loop on the game object, with the fuel of
    [dealer_draws]. *)
Fixpoint dealer_loop (fuel : nat) (self : t) : result unit * t :=
  if Player.total_hand (p1 self) <? 18 then
    match CardDeck.deal_card (cd self) with
    | Ok (c, cd) =>
        let self :=
          set_players (Player.append_hand (p1 self) c) (p2 self) cd (random self) self in
        match fuel with
        | O => (Diverge, self)
        | S fuel => dealer_loop fuel self
        end
    | Raise e => (Raise e, self)
    | Diverge => (Diverge, self)
    end
  else (Ok (), self).

Definition do_pass_effect (self : t) : result stop * t :=
  let self := set_quitting false self in
  let '(looped, self) := dealer_loop (length (CardDeck.deck (cd self))) self in
  match looped with
  | Ok _ =>
      let self := print "Dealer's hand" self in
      match Player.print_friendly_hand (p1 self) with
      | Ok s =>
          let self := print s self in
          let self := print (pretty (Player.total_hand (p1 self))) self in
          let self := print "" self in
          let self :=
            if Player.total_hand (p1 self) >? 21 then
              if Player.total_hand (p2 self) >? 21 then
                print "Tie, both busted" self
              else
                p2_wins (print "Player wins, dealer busted" self)
            else
              if Player.total_hand (p1 self) >=? Player.total_hand (p2 self) then
                p1_wins (print "Dealer wins" self)
              else if Player.total_hand (p2 self) <=? 21 then
                p2_wins (print "Player wins" self)
              else
                p1_wins (print "Dealer Wins" self) in
          (Ok false, set_playing false self)
      | Raise e => (Raise e, self)
      | Diverge => (Diverge, self)
      end
  | Raise e => (Raise e, self)
  | Diverge => (Diverge, self)
  end.

(** What a call with its object amounts to for the caller: the value and
    the object when it returns, the exception alone when it raises. *)
Definition outcome {A} (x : result A * t) : result (A * t) :=
  match x with
  | (Ok a, self) => Ok (a, self)
  | (Raise e, _) => Raise e
  | (Diverge, _) => Diverge
  end.

(** The inverted question mark, code point 191. *)
Definition iquest : string := String (Ascii.ascii_of_nat 191) "".

(** [_BlackJackGame.do_yes] *)
Definition do_yes (self : t) : result (stop * t) :=
  let self := set_quitting false self in
  if negb (playing self) then
    let self := set_playing true self in
    let '(p1, cd) := Player.discard (p1 self) (cd self) in
    let '(p2, cd) := Player.discard (p2 self) cd in
    let p1 := {| Player.hand := []; Player.score := Player.score p1 |} in
    let p2 := {| Player.hand := []; Player.score := Player.score p2 |} in
    self ← start_game (set_players p1 p2 cd (random self) self);
    Ok (false, self)
  else
    Ok (false, print (iquest +:+ "Que?") self).

(** [_BlackJackGame.do_newHand] and [_BlackJackGame.do_another] *)
Definition do_newHand (self : t) : result (stop * t) := do_yes self.
Definition do_another (self : t) : result (stop * t) := do_yes self.

Definition print_scores (self : t) : t :=
  let self := print "Dealer score: " self in
  let self := print (pretty (Player.score (p1 self))) self in
  let self := print "Player score: " self in
  print (pretty (Player.score (p2 self))) self.

(** [_BlackJackGame.do_no] *)
Definition do_no (self : t) : result (stop * t) :=
  if negb (playing self) then
    Ok (true, print_scores self)
  else if quitting self then
    Ok (true, print_scores self)
  else
    let self := set_quitting true self in
    Ok (false, print (iquest +:+ "Que? Just one hand") self).

(** [_BlackJackGame.do_EOF], [do_quit] and [do_exit] *)
Definition do_EOF (self : t) : result (stop * t) := do_no self.
Definition do_quit (self : t) : result (stop * t) := do_no self.
Definition do_exit (self : t) : result (stop * t) := do_no self.

(** The commands the class defines, and the dispatch of cmd.Cmd from a
    command word to its [do_*] method. *)
Inductive command : Set :=
| hit | pass | stand | yes | newHand | another | no | EOF | quit | exit.

Definition onecmd (c : command) (self : t) : result (stop * t) :=
  match c with
  | hit => do_hit self
  | pass => do_pass self
  | stand => do_stand self
  | yes => do_yes self
  | newHand => do_newHand self
  | another => do_another self
  | no => do_no self
  | EOF => do_EOF self
  | quit => do_quit self
  | exit => do_exit self
  end.

(** The command loop on the commands read so far: it runs them in order
    and ends at the first one that returns true. *)
Fixpoint run (lines : list command) (self : t) : result (stop * t) :=
  match lines with
  | [] => Ok (false, self)
  | c :: lines =>
      '(stop, self) ← onecmd c self;
      if (stop : bool) then Ok (true, self) else run lines self
  end.
End _BlackJackGame.


(** ** Vocabulary of the properties *)

(** The sum of the values of a hand and the number of its aces. *)
Definition raw_total (h : list Card.t) : Z :=
  foldr (λ c n, Card.value c + n) 0 h.

Definition aces (h : list Card.t) : nat :=
  length (filter (λ c, Card.rank c = 1) h).

(** The total of a hand, whoever holds it. *)
Definition hand_total (h : list Card.t) : Z :=
  Player.total_hand (Player.mk h 0).

(** The 52 cards in the order of a new pack: suit by suit, ace to king. *)
Definition suits : list string := ["Diamonds"; "Spades"; "Hearts"; "Clubs"].

Definition standard_deck : list Card.t :=
  concat (map (λ s, map (Card.__init__ s) CardDeck.ranks) suits).

(** A rank a card can be built with and printed. *)
Definition valid_rank (c : Card.t) : Prop := 1 ≤ Card.rank c ≤ 13.

(** The value the rank of a card gives it. *)
Definition value_of_rank (r : Z) : Z :=
  if bool_decide (2 ≤ r ≤ 10) then r else 10.

(** Every place a card of the game can be: the two hands, the draw pile
    and the discard pile. *)
Definition cards (g : _BlackJackGame.t) : list Card.t :=
  Player.hand (_BlackJackGame.p1 g) ++ Player.hand (_BlackJackGame.p2 g)
  ++ CardDeck.deck (_BlackJackGame.cd g) ++ CardDeck.discard (_BlackJackGame.cd g).

(** The same places, given apart. *)
Definition table (h1 h2 : list Card.t) (d : CardDeck.t) : list Card.t :=
  h1 ++ h2 ++ CardDeck.deck d ++ CardDeck.discard d.

(** What a step may do to the scores: none goes down, and together they
    go up by one at most. *)
Definition scores_step (g g' : _BlackJackGame.t) : Prop :=
  Player.score (_BlackJackGame.p1 g) ≤ Player.score (_BlackJackGame.p1 g')
  ∧ Player.score (_BlackJackGame.p2 g) ≤ Player.score (_BlackJackGame.p2 g')
  ∧ Player.score (_BlackJackGame.p1 g') + Player.score (_BlackJackGame.p2 g')
    ≤ Player.score (_BlackJackGame.p1 g) + Player.score (_BlackJackGame.p2 g) + 1.

(** The operations that move cards, on the game that owns the deck and
    the two players. *)
Inductive seat : Set := dealer | player.

Inductive operation : Set :=
| op_deal (s : seat)        (* hand.append(deck.deal_card()) *)
| op_hit (s : seat)         (* Player.hit *)
| op_discard (s : seat)     (* Player.discard *)
| op_recycle                (* CardDeck.shuffle_in_discards *)
| op_command (c : _BlackJackGame.command).

Definition seated (s : seat) (g : _BlackJackGame.t) : Player.t :=
  match s with
  | dealer => _BlackJackGame.p1 g
  | player => _BlackJackGame.p2 g
  end.

Definition seat_player (s : seat) (p : Player.t) (cd : CardDeck.t) (r : Random.t)
    (g : _BlackJackGame.t) : _BlackJackGame.t :=
  match s with
  | dealer => _BlackJackGame.set_players p (_BlackJackGame.p2 g) cd r g
  | player => _BlackJackGame.set_players (_BlackJackGame.p1 g) p cd r g
  end.

Definition apply_op (o : operation) (g : _BlackJackGame.t) : result _BlackJackGame.t :=
  let cd := _BlackJackGame.cd g in
  let r := _BlackJackGame.random g in
  match o with
  | op_deal s =>
      '(c, cd) ← CardDeck.deal_card cd;
      Ok (seat_player s (Player.append_hand (seated s g) c) cd r g)
  | op_hit s =>
      '(p, cd, r) ← Player.hit (seated s g) cd r;
      Ok (seat_player s p cd r g)
  | op_discard s =>
      let '(p, cd) := Player.discard (seated s g) cd in
      Ok (seat_player s p cd r g)
  | op_recycle =>
      let '(cd, r) := CardDeck.shuffle_in_discards cd r in
      Ok (_BlackJackGame.set_players (_BlackJackGame.p1 g) (_BlackJackGame.p2 g) cd r g)
  | op_command c =>
      '(_, g) ← _BlackJackGame.onecmd c g;
      Ok g
  end.

(** A session: the game is created, then operations follow one another. *)
Definition session (r : Random.t) (ops : list operation) : result _BlackJackGame.t :=
  fold_left (λ g o, g ← g; apply_op o g) ops (_BlackJackGame.__init__ r).

(** [n] calls of [Player.hit] in a row. *)
Fixpoint hits (n : nat) (p : Player.t) (cd : CardDeck.t) (r : Random.t)
  : result (Player.t * CardDeck.t * Random.t) :=
  match n with
  | O => Ok (p, cd, r)
  | S n =>
      '(p, cd, r) ← Player.hit p cd r;
      hits n p cd r
  end.

(** The commands that ask to leave. *)
Definition leaves (c : _BlackJackGame.command) : bool :=
  match c with
  | _BlackJackGame.no | _BlackJackGame.EOF
  | _BlackJackGame.quit | _BlackJackGame.exit => true
  | _ => false
  end.

(** A round for the examples: the dealer holds a five, the player 19, and
    a king and a six are on top of the draw pile. *)
Definition round0 : _BlackJackGame.t :=
  _BlackJackGame.mk
    (CardDeck.mk [Card.__init__ "Hearts" 2; Card.__init__ "Clubs" 13; Card.__init__ "Spades" 6]
                 [Card.__init__ "Diamonds" 3])
    (Player.mk [Card.__init__ "Hearts" 5] 0)
    (Player.mk [Card.__init__ "Spades" 10; Card.__init__ "Hearts" 9] 0)
    true false (Random.mk (λ n, n * 7 + 3)%nat 0) [].

(** A round for the examples where the draw pile is too short for the
    dealer, though the discard pile holds cards. *)
Definition short_pile : _BlackJackGame.t :=
  _BlackJackGame.mk
    (CardDeck.mk [Card.__init__ "Hearts" 2; Card.__init__ "Diamonds" 3]
                 [Card.__init__ "Clubs" 13; Card.__init__ "Spades" 12])
    (Player.mk [Card.__init__ "Hearts" 5] 0)
    (Player.mk [Card.__init__ "Spades" 10; Card.__init__ "Hearts" 9] 0)
    true false (Random.mk (λ n, n * 7 + 3)%nat 0) [].

(** A card as [Card.__init__] builds it, with a rank of the pack. *)
Definition built (c : Card.t) : Prop :=
  valid_rank c ∧ c = Card.__init__ (Card.suit c) (Card.rank c).

(** A game from its creation through the commands typed. *)
Definition play (r : Random.t) (lines : list _BlackJackGame.command)
  : result (_BlackJackGame.stop * _BlackJackGame.t) :=
  g ← _BlackJackGame.__init__ r; _BlackJackGame.run lines g.

(** The commands that hand the round to the dealer. *)
Definition passes (c : _BlackJackGame.command) : bool :=
  match c with
  | _BlackJackGame.pass | _BlackJackGame.stand => true
  | _ => false
  end.

(** The cards [cs], in the order dealt, have left the deck [d] by calls of
    [Player.hit], and [d'] is the deck now: either all of them came off the
    end of the draw pile and the discard pile is what it was, or the draw
    pile ran out after [n] of them, the discard pile was shuffled into a
    new draw pile, and the others came off the end of that. *)
Definition dealt (d : CardDeck.t) (cs : list Card.t) (d' : CardDeck.t) : Prop :=
  (CardDeck.deck d = CardDeck.deck d' ++ reverse cs
   ∧ CardDeck.discard d' = CardDeck.discard d)
  ∨ (∃ n, (n < length cs)%nat
       ∧ CardDeck.deck d = reverse (take n cs)
       ∧ CardDeck.discard d' = []
       ∧ CardDeck.deck d' ++ reverse (drop n cs) ≡ₚ CardDeck.discard d).

(** The points a resolved round gives to the dealer and to the player,
    from the dealer's total [d] and the player's total [p]. *)
Definition points (d p : Z) : Z * Z :=
  if d >? 21 then (if p >? 21 then (0, 0) else (0, 1))
  else if d >=? p then (1, 0)
  else if p <=? 21 then (0, 1)
  else (1, 0).

(** What holds of the table throughout a game played by commands: the 52
    cards are all there, the dealer holds 18 cards at most and the player
    22, and a player whose round is on is not over 21. *)
Definition table_ok (g : _BlackJackGame.t) : Prop :=
  cards g ≡ₚ standard_deck
  ∧ (length (Player.hand (_BlackJackGame.p1 g)) ≤ 18)%nat
  ∧ (length (Player.hand (_BlackJackGame.p2 g)) ≤ 22)%nat
  ∧ (_BlackJackGame.playing g = true →
     hand_total (Player.hand (_BlackJackGame.p2 g)) ≤ 21).

(** The lines that [do_no] prints. *)
Definition warning : string := _BlackJackGame.iquest +:+ "Que? Just one hand".

Definition score_lines (g : _BlackJackGame.t) : list string :=
  ["Dealer score: "; pretty (Player.score (_BlackJackGame.p1 g));
   "Player score: "; pretty (Player.score (_BlackJackGame.p2 g))].

(** Nine rounds of [pass] then [yes], and one more [pass]. *)
Definition ten_passes : list _BlackJackGame.command :=
  concat (replicate 9 [_BlackJackGame.pass; _BlackJackGame.yes]) ++ [_BlackJackGame.pass].

(** A round for the examples where the player has gone over 21. *)
Definition bust_round : _BlackJackGame.t :=
  _BlackJackGame.mk
    (CardDeck.mk [Card.__init__ "Hearts" 2; Card.__init__ "Clubs" 13]
                 [Card.__init__ "Diamonds" 3])
    (Player.mk [Card.__init__ "Hearts" 5; Card.__init__ "Clubs" 4] 1)
    (Player.mk [Card.__init__ "Spades" 10; Card.__init__ "Hearts" 9;
                Card.__init__ "Spades" 6] 0)
    false false (Random.mk (λ n, n * 7 + 3)%nat 0) [].

(** A generator for the examples. *)
Definition tape0 : Random.t := Random.mk (λ n, n * 7 + 3)%nat 0.
Definition tape1 : Random.t := Random.mk (λ n, n * 5 + 3)%nat 0.

(** * Properties *)

(** ** Lists, the generator and the monad *)

Section ListPopFacts.
Context {A : Type}.
Implicit Types (l : list A) (c : A).

Lemma pop_snoc l c : pop (l ++ [c]) = Some (c, l).
Proof.
  induction l as [|x l IH]; simpl; [done|]. by rewrite IH.
Qed.

Lemma pop_nil_inv l : pop l = None → l = [].
Proof.
  destruct l as [|x l]; [done|]. simpl.
  by destruct (pop l) as [[? ?]|].
Qed.

Lemma pop_Some_inv l c rest : pop l = Some (c, rest) → l = rest ++ [c].
Proof.
  revert c rest. induction l as [|x l IH]; intros c rest; simpl; [done|].
  destruct (pop l) as [[c' r']|] eqn:E.
  - intros [= <- <-]. by rewrite (IH _ _ eq_refl).
  - intros [= <- <-]. by rewrite (pop_nil_inv _ E).
Qed.

Lemma pop_is_Some l : l ≠ [] → ∃ c rest, l = rest ++ [c] ∧ pop l = Some (c, rest).
Proof.
  intros Hl. destruct (pop l) as [[c rest]|] eqn:E.
  - exists c, rest. split; [by apply pop_Some_inv|done].
  - by apply pop_nil_inv in E.
Qed.

Lemma swap_Permutation i j l : swap i j l ≡ₚ l.
Proof.
  unfold swap.
  destruct (l !! i) as [a|] eqn:Hi; [|done].
  destruct (l !! j) as [b|] eqn:Hj; [|done].
  by apply Permutation_insert_swap.
Qed.

Lemma shuffle_from_Permutation i l r : (Random.shuffle_from i l r).1 ≡ₚ l.
Proof.
  revert l r. induction i as [|i IH]; intros l r; [done|].
  cbn [Random.shuffle_from Random.randbelow]. rewrite IH. apply swap_Permutation.
Qed.

Lemma shuffle_Permutation l r : (Random.shuffle l r).1 ≡ₚ l.
Proof. apply shuffle_from_Permutation. Qed.
End ListPopFacts.

Lemma bind_Ok {A B} (m : result A) (k : A → result B) b :
  m ≫= k = Ok b → ∃ a, m = Ok a ∧ k a = Ok b.
Proof. destruct m as [a| |]; [eauto|done..]. Qed.

Lemma bind_not_Diverge {A B} (m : result A) (k : A → result B) :
  m ≠ Diverge → (∀ a, m = Ok a → k a ≠ Diverge) → m ≫= k ≠ Diverge.
Proof. destruct m as [a| |]; [eauto|done..]. Qed.

(** ** Cards and hands *)

Lemma init_value suit r : Card.value (Card.__init__ suit r) = value_of_rank r.
Proof.
  unfold value_of_rank. cbn. case_bool_decide as H.
  - replace (r >? 1) with true by (symmetry; apply Z.gtb_lt; lia).
    replace (r <? 11) with true by (symmetry; apply Z.ltb_lt; lia). done.
  - destruct (r >? 1) eqn:H1; [|done].
    destruct (r <? 11) eqn:H2; [|done].
    apply Z.gtb_lt in H1. apply Z.ltb_lt in H2. lia.
Qed.

Lemma sum_loop h z :
  fold_left (λ total card, total + Card.value card) h z = z + raw_total h.
Proof.
  revert z. induction h as [|c h IH]; intros z; cbn; [lia|].
  rewrite IH. unfold raw_total. cbn. lia.
Qed.

Lemma ace_loop h z :
  fold_left (λ total card, if Card.rank card =? 1 then total - 9 else total) h z
  = z - 9 * Z.of_nat (aces h).
Proof.
  revert z. unfold aces. induction h as [|c h IH]; intros z; cbn [fold_left].
  { cbn. lia. }
  rewrite IH, filter_cons. destruct (Z.eqb_spec (Card.rank c) 1) as [E|E].
  - rewrite decide_True by done. cbn [length]. lia.
  - by rewrite decide_False.
Qed.

(** C1.  The total of a hand is the sum of the values of its cards when
    that sum is at most 21; otherwise it is the sum less 9 for every card
    of rank 1, all of them, whatever the total has become on the way.  A
    hand of two aces and a nine totals 11. *)
Theorem total_hand_soft_aces (p : Player.t) :
  Player.total_hand p =
    (if bool_decide (raw_total (Player.hand p) ≤ 21)
     then raw_total (Player.hand p)
     else raw_total (Player.hand p) - 9 * Z.of_nat (aces (Player.hand p)))
  ∧ (∀ s1 s2 s3 score,
      Player.total_hand
        (Player.mk [Card.__init__ s1 1; Card.__init__ s2 1; Card.__init__ s3 9] score) = 11)
  ∧ (∀ s1 s2 s3 s4 score,
      Player.total_hand
        (Player.mk [Card.__init__ s1 1; Card.__init__ s2 1; Card.__init__ s3 1;
                    Card.__init__ s4 9] score) = 12).
Proof.
  split; [|done].
  unfold Player.total_hand. rewrite sum_loop, Z.add_0_l.
  case_bool_decide as H.
  - by replace (raw_total (Player.hand p) >? 21) with false
      by (symmetry; rewrite Z.gtb_ltb; apply Z.ltb_ge; lia).
  - replace (raw_total (Player.hand p) >? 21) with true
      by (symmetry; apply Z.gtb_lt; lia).
    apply ace_loop.
Qed.

(** ** The unshuffled deck *)

Lemma append_suit self suit :
  CardDeck._append_suit_to_deck self suit =
    CardDeck.mk (CardDeck.deck self ++ map (Card.__init__ suit) CardDeck.ranks)
                (CardDeck.discard self).
Proof.
  unfold CardDeck._append_suit_to_deck. cbn.
  by rewrite <- !(assoc_L (++)).
Qed.

Lemma create_unshuffled_deck_app self :
  CardDeck.create_unshuffled_deck self =
    CardDeck.mk (CardDeck.deck self ++ standard_deck) (CardDeck.discard self).
Proof.
  unfold CardDeck.create_unshuffled_deck. rewrite !append_suit. cbn.
  by rewrite <- !(assoc_L (++)).
Qed.

Lemma standard_deck_covers s r :
  s ∈ suits → 1 ≤ r ≤ 13 → Card.__init__ s r ∈ standard_deck.
Proof.
  intros Hs Hr. assert (r ∈ CardDeck.ranks) as Hin.
  { unfold CardDeck.ranks. rewrite !elem_of_cons, elem_of_nil. lia. }
  apply list_elem_of_In, in_concat.
  exists (map (Card.__init__ s) CardDeck.ranks). split.
  - apply in_map_iff. exists s. by rewrite <- list_elem_of_In.
  - apply in_map_iff. exists r. by rewrite <- list_elem_of_In.
Qed.

Lemma standard_deck_NoDup : NoDup standard_deck.
Proof. apply (bool_decide_unpack _). by vm_compute. Qed.

(** C8.  From an empty deck, [create_unshuffled_deck] leaves a draw pile of
    exactly 52 cards, one for each pair of a suit and a rank and none
    twice, in the order Diamonds, Spades, Hearts, Clubs with the ranks of
    each suit going up from 1 to 13. *)
Theorem create_unshuffled_deck_standard :
  let d := CardDeck.create_unshuffled_deck CardDeck.__init__ in
  CardDeck.deck d = standard_deck
  ∧ CardDeck.discard d = []
  ∧ length (CardDeck.deck d) = 52%nat
  ∧ NoDup (map (λ c, (Card.suit c, Card.rank c)) (CardDeck.deck d))
  ∧ (∀ s r, s ∈ suits → 1 ≤ r ≤ 13 → Card.__init__ s r ∈ CardDeck.deck d)
  ∧ (∀ i j s, (j < 13)%nat → suits !! i = Some s →
       CardDeck.deck d !! (13 * i + j)%nat = Some (Card.__init__ s (Z.of_nat j + 1))).
Proof.
  cbv zeta. rewrite create_unshuffled_deck_app. cbn [CardDeck.deck CardDeck.discard CardDeck.__init__ app].
  split_and!; [done..| | |].
  - apply (bool_decide_unpack _). by vm_compute.
  - apply standard_deck_covers.
  - intros i j s Hj Hi.
    do 4 (destruct i as [|i]; [injection Hi as <-;
      do 13 (destruct j as [|j]; [reflexivity|]); lia|]).
    done.
Qed.

(** ** The deck and the players *)

Lemma total_hand_hand_total p : Player.total_hand p = hand_total (Player.hand p).
Proof. reflexivity. Qed.

Lemma deal_card_snoc d rest c :
  CardDeck.deck d = rest ++ [c] →
  CardDeck.deal_card d = Ok (c, CardDeck.mk rest (CardDeck.discard d)).
Proof. unfold CardDeck.deal_card. intros ->. by rewrite pop_snoc. Qed.

Lemma deal_card_nil d :
  CardDeck.deck d = [] → CardDeck.deal_card d = Raise IndexError.
Proof. unfold CardDeck.deal_card. by intros ->. Qed.

Lemma deal_card_Ok d c d' :
  CardDeck.deal_card d = Ok (c, d') →
  CardDeck.deck d = CardDeck.deck d' ++ [c] ∧ CardDeck.discard d' = CardDeck.discard d.
Proof.
  unfold CardDeck.deal_card.
  destruct (pop (CardDeck.deck d)) as [[c' rest]|] eqn:E; [|done].
  intros [= <- <-]. by apply pop_Some_inv in E.
Qed.

Lemma deal_card_not_Diverge d : CardDeck.deal_card d ≠ Diverge.
Proof. unfold CardDeck.deal_card. by destruct (pop _) as [[? ?]|]. Qed.

Lemma shuffle_deck_spec d r :
  CardDeck.shuffle_deck d r =
    (CardDeck.mk (Random.shuffle (CardDeck.deck d) r).1 (CardDeck.discard d),
     (Random.shuffle (CardDeck.deck d) r).2).
Proof. unfold CardDeck.shuffle_deck. by destruct (Random.shuffle _ _). Qed.

Lemma shuffle_in_discards_spec d r :
  CardDeck.shuffle_in_discards d r =
    (CardDeck.mk (Random.shuffle (CardDeck.deck d ++ CardDeck.discard d) r).1 [],
     (Random.shuffle (CardDeck.deck d ++ CardDeck.discard d) r).2).
Proof. unfold CardDeck.shuffle_in_discards. by rewrite shuffle_deck_spec. Qed.

Lemma hit_draw p d r rest c :
  CardDeck.deck d = rest ++ [c] →
  Player.hit p d r =
    Ok (Player.append_hand p c, CardDeck.mk rest (CardDeck.discard d), r).
Proof.
  intros Hd. unfold Player.hit.
  replace (CardDeck.__len__ d >? 0) with true.
  - by rewrite (deal_card_snoc _ _ _ Hd).
  - symmetry. apply Z.gtb_lt. unfold CardDeck.__len__.
    rewrite Hd, length_app. cbn. lia.
Qed.

Lemma hit_empty p d r :
  CardDeck.deck d = [] →
  Player.hit p d r =
    '(c, deck) ← CardDeck.deal_card
        (CardDeck.mk (Random.shuffle (CardDeck.discard d) r).1 []);
    Ok (Player.append_hand p c, deck, (Random.shuffle (CardDeck.discard d) r).2).
Proof.
  intros Hd. unfold Player.hit, CardDeck.__len__.
  rewrite shuffle_in_discards_spec, Hd. done.
Qed.

Lemma Permutation_nil_inv {A} (l : list A) : l ≡ₚ [] → l = [].
Proof. intros H. by apply Permutation_nil_r. Qed.

Lemma hit_recycle p d r :
  CardDeck.deck d = [] → CardDeck.discard d ≠ [] →
  ∃ rest c,
    (Random.shuffle (CardDeck.discard d) r).1 = rest ++ [c]
    ∧ Player.hit p d r =
        Ok (Player.append_hand p c, CardDeck.mk rest [],
            (Random.shuffle (CardDeck.discard d) r).2).
Proof.
  intros Hd Hdis. rewrite (hit_empty _ _ _ Hd).
  destruct (pop_is_Some (Random.shuffle (CardDeck.discard d) r).1) as (c & rest & E & _).
  { intros E. apply Hdis, Permutation_nil_inv. by rewrite <- (shuffle_Permutation _ r), E. }
  exists rest, c. split; [done|].
  by rewrite (deal_card_snoc _ rest c).
Qed.

Lemma hit_nothing_left p d r :
  CardDeck.deck d = [] → CardDeck.discard d = [] →
  Player.hit p d r = Raise IndexError.
Proof. intros Hd Hdis. rewrite (hit_empty _ _ _ Hd), Hdis. done. Qed.

Lemma hit_not_Diverge p d r : Player.hit p d r ≠ Diverge.
Proof.
  unfold Player.hit. destruct (_ >? _).
  - apply bind_not_Diverge; [apply deal_card_not_Diverge|by intros [? ?]].
  - destruct (CardDeck.shuffle_in_discards d r).
    apply bind_not_Diverge; [apply deal_card_not_Diverge|by intros [? ?]].
Qed.

(** What a successful [hit] has done, in one statement: one card has moved
    to the end of the hand, the score is what it was, and the cards of the
    hand and the two piles together are the same cards as before. *)
Lemma hit_Ok p d r p' d' r' :
  Player.hit p d r = Ok (p', d', r') →
  ∃ c, p' = Player.append_hand p c
       ∧ c :: CardDeck.deck d' ++ CardDeck.discard d'
           ≡ₚ CardDeck.deck d ++ CardDeck.discard d.
Proof.
  intros H. destruct (decide (CardDeck.deck d = [])) as [Hd|Hd].
  - destruct (decide (CardDeck.discard d = [])) as [Hdis|Hdis].
    { by rewrite hit_nothing_left in H. }
    destruct (hit_recycle p d r Hd Hdis) as (rest & c & Hs & Hh).
    rewrite Hh in H. injection H as <- <- <-. exists c. split; [done|].
    cbn. rewrite Hd, app_nil_r. cbn.
    rewrite <- (shuffle_Permutation (CardDeck.discard d) r), Hs.
    by rewrite (comm (++) rest).
  - destruct (pop_is_Some _ Hd) as (c & rest & E & _).
    rewrite (hit_draw _ _ _ _ _ E) in H. injection H as <- <- <-.
    exists c. split; [done|]. cbn. rewrite E.
    rewrite <- (assoc_L (++)). apply Permutation_middle.
Qed.

Lemma hits_draw drawn p rest discard r :
  hits (length drawn) p (CardDeck.mk (rest ++ reverse drawn) discard) r =
    Ok (Player.mk (Player.hand p ++ drawn) (Player.score p),
        CardDeck.mk rest discard, r).
Proof.
  revert p. induction drawn as [|c drawn IH]; intros p.
  - cbn. rewrite !app_nil_r. by destruct p.
  - cbn [length hits]. rewrite reverse_cons, (assoc_L (++)).
    erewrite hit_draw by reflexivity. cbn [mbind result_bind CardDeck.discard].
    rewrite IH. cbn. by rewrite <- (assoc_L (++)).
Qed.

(** C6, counterexample.  With nothing in the draw pile and nothing in the
    discard pile, [hit] recycles an empty pile and then pops from an empty
    list: no card reaches the hand. *)
Lemma hit_both_piles_empty :
  Player.hit Player.__init__ CardDeck.__init__ tape0 = Raise IndexError.
Proof. reflexivity. Qed.

(** C6, as amended.  [hit] moves the top card of a draw pile that is not
    empty to the end of the hand and touches nothing else.  On an empty
    draw pile it first shuffles the discard pile, whoever discarded into
    it, into a new draw pile and empties the discard pile; when that pile
    held a card, the top card of the new draw pile then goes to the hand,
    and when it held none the call raises IndexError. *)
Theorem hit_deals_one_card (p : Player.t) (d : CardDeck.t) (r : Random.t) :
  (∀ rest c, CardDeck.deck d = rest ++ [c] →
     Player.hit p d r =
       Ok (Player.append_hand p c, CardDeck.mk rest (CardDeck.discard d), r))
  ∧ (CardDeck.deck d = [] → CardDeck.discard d ≠ [] →
     ∃ rest c,
       (Random.shuffle (CardDeck.discard d) r).1 = rest ++ [c]
       ∧ rest ++ [c] ≡ₚ CardDeck.discard d
       ∧ Player.hit p d r =
           Ok (Player.append_hand p c, CardDeck.mk rest [],
               (Random.shuffle (CardDeck.discard d) r).2))
  ∧ (CardDeck.deck d = [] → CardDeck.discard d = [] →
     Player.hit p d r = Raise IndexError).
Proof.
  split_and!.
  - intros rest c Hd. by apply hit_draw.
  - intros Hd Hdis.
    destruct (hit_recycle p d r Hd Hdis) as (rest & c & Hs & Hh).
    exists rest, c. split_and!; [done| |done].
    rewrite <- Hs. apply shuffle_Permutation.
  - apply hit_nothing_left.
Qed.

Lemma hit_deals_one_card_witness :
  Player.hit Player.__init__ (CardDeck.create_unshuffled_deck CardDeck.__init__) tape0
    = Ok (Player.mk [Card.__init__ "Clubs" 13] 0,
          CardDeck.mk (take 51 standard_deck) [], tape0)
  ∧ (∃ rest c,
       Player.hit Player.__init__
         (CardDeck.mk [] [Card.__init__ "Hearts" 2; Card.__init__ "Spades" 7]) tape0
       = Ok (Player.mk [c] 0, CardDeck.mk rest [],
             (Random.shuffle [Card.__init__ "Hearts" 2; Card.__init__ "Spades" 7] tape0).2)).
Proof.
  split.
  - exact (proj1 (hit_deals_one_card Player.__init__
             (CardDeck.create_unshuffled_deck CardDeck.__init__) tape0)
             (take 51 standard_deck) (Card.__init__ "Clubs" 13) eq_refl).
  - destruct (proj1 (proj2 (hit_deals_one_card Player.__init__
               (CardDeck.mk [] [Card.__init__ "Hearts" 2; Card.__init__ "Spades" 7]) tape0))
               eq_refl ltac:(discriminate)) as (rest & c & _ & _ & H).
    exists rest, c. exact H.
Defined.

(** ** Printing a hand *)

Lemma str_valid c : valid_rank c → ∃ s, Card.str c = Ok s.
Proof.
  unfold valid_rank, Card.str, Card.__str__. intros Hc.
  destruct ((Card.rank c >? 1) && (Card.rank c <? 11)) eqn:E; [eauto|].
  destruct (Z.eqb_spec (Card.rank c) 1); [eauto|].
  destruct (Z.eqb_spec (Card.rank c) 11); [eauto|].
  destruct (Z.eqb_spec (Card.rank c) 12); [eauto|].
  destruct (Z.eqb_spec (Card.rank c) 13); [eauto|].
  apply andb_false_iff in E as [E|E].
  - rewrite Z.gtb_ltb in E. apply Z.ltb_ge in E. lia.
  - apply Z.ltb_ge in E. lia.
Qed.

Lemma print_friendly_hand_valid p :
  Forall valid_rank (Player.hand p) → ∃ s, Player.print_friendly_hand p = Ok s.
Proof.
  unfold Player.print_friendly_hand.
  assert (∀ h acc, Forall valid_rank h → ∃ text,
    fold_left (λ acc card, text ← acc; s ← Card.str card; Ok (text +:+ s +:+ ", "))
      h (Ok acc) = Ok text) as H.
  { induction h as [|c h IH]; intros acc Hh; cbn [fold_left]; [eauto|].
    inversion_clear Hh as [|? ? Hc Hh'].
    destruct (str_valid c Hc) as [s ->]. cbn [mbind result_bind].
    by apply IH. }
  intros Hh. destruct (H _ ""%string Hh) as [text ->]. cbn. eauto.
Qed.

Lemma print_friendly_hand_not_Diverge p : Player.print_friendly_hand p ≠ Diverge.
Proof.
  unfold Player.print_friendly_hand.
  assert (∀ h acc, acc ≠ Diverge →
    fold_left (λ acc card, text ← acc; s ← Card.str card; Ok (text +:+ s +:+ ", "))
      h acc ≠ (Diverge : result string)) as H.
  { induction h as [|c h IH]; intros acc Hacc; [done|]. apply IH.
    destruct acc as [text| |]; [|done..]. cbn. unfold Card.str.
    by destruct (Card.__str__ c). }
  apply bind_not_Diverge; [by apply H|done].
Qed.

Lemma print_hand_Ok p g g' :
  _BlackJackGame.print_hand p g = Ok g' → ∃ s, g' = _BlackJackGame.print s g.
Proof.
  unfold _BlackJackGame.print_hand.
  intros (s & _ & [= <-])%bind_Ok. eauto.
Qed.

Lemma print_hand_valid p g :
  Forall valid_rank (Player.hand p) →
  ∃ s, _BlackJackGame.print_hand p g = Ok (_BlackJackGame.print s g).
Proof.
  intros [s Hs]%print_friendly_hand_valid. exists s.
  unfold _BlackJackGame.print_hand. by rewrite Hs.
Qed.

Lemma print_hand_not_Diverge p g : _BlackJackGame.print_hand p g ≠ Diverge.
Proof.
  apply bind_not_Diverge; [apply print_friendly_hand_not_Diverge|done].
Qed.

(** ** The dealer's draws *)

Lemma dealer_draws_not_Diverge fuel p d :
  (length (CardDeck.deck d) ≤ fuel)%nat →
  _BlackJackGame.dealer_draws fuel p d ≠ Diverge.
Proof.
  revert p d. induction fuel as [|fuel IH]; intros p d Hfuel;
    cbn [_BlackJackGame.dealer_draws]; destruct (_ <? 18); try done.
  - rewrite deal_card_nil; [done|].
    destruct (CardDeck.deck d); [done|cbn in Hfuel; lia].
  - apply bind_not_Diverge; [apply deal_card_not_Diverge|].
    intros [c d'] [Hd _]%deal_card_Ok. apply IH.
    rewrite Hd, length_app in Hfuel. cbn in Hfuel. lia.
Qed.

(** The loop stops at the first total of 18 or more: the cards [drawn] come
    off the end of the draw pile one by one and go to the end of the hand. *)
Lemma dealer_draws_stops drawn fuel p rest discard :
  (length drawn ≤ fuel)%nat →
  (∀ k, (k < length drawn)%nat → hand_total (Player.hand p ++ take k drawn) < 18) →
  18 ≤ hand_total (Player.hand p ++ drawn) →
  _BlackJackGame.dealer_draws fuel p (CardDeck.mk (rest ++ reverse drawn) discard) =
    Ok (Player.mk (Player.hand p ++ drawn) (Player.score p), CardDeck.mk rest discard).
Proof.
  revert fuel p. induction drawn as [|c drawn IH]; intros fuel p Hfuel Hlow Hhigh.
  - rewrite app_nil_r in Hhigh. rewrite !app_nil_r.
    destruct fuel; cbn [_BlackJackGame.dealer_draws];
      rewrite total_hand_hand_total;
      (replace (hand_total (Player.hand p) <? 18) with false
         by (symmetry; apply Z.ltb_ge; lia)); by destruct p.
  - destruct fuel as [|fuel]; [cbn in Hfuel; lia|].
    cbn [_BlackJackGame.dealer_draws]. rewrite total_hand_hand_total.
    replace (hand_total (Player.hand p) <? 18) with true.
    2:{ symmetry. apply Z.ltb_lt. specialize (Hlow 0%nat).
        rewrite take_0, app_nil_r in Hlow. apply Hlow. cbn. lia. }
    rewrite reverse_cons, (assoc_L (++)).
    erewrite deal_card_snoc by reflexivity. cbn [mbind result_bind CardDeck.discard].
    rewrite IH.
    + cbn. by rewrite <- (assoc_L (++)).
    + cbn in Hfuel. lia.
    + intros k Hk. cbn [Player.append_hand Player.hand].
      rewrite <- (assoc_L (++)). apply (Hlow (S k)). cbn. lia.
    + cbn [Player.append_hand Player.hand]. by rewrite <- (assoc_L (++)).
Qed.

(** The loop runs out of cards when no total on the way reaches 18. *)
Lemma dealer_draws_exhausts pile fuel p discard :
  (length pile ≤ fuel)%nat →
  (∀ k, (k ≤ length pile)%nat →
     hand_total (Player.hand p ++ take k (reverse pile)) < 18) →
  _BlackJackGame.dealer_draws fuel p (CardDeck.mk pile discard) = Raise IndexError.
Proof.
  revert fuel p. induction pile as [|c pile IH] using rev_ind; intros fuel p Hfuel Hlow.
  - specialize (Hlow 0%nat). rewrite take_0, app_nil_r in Hlow.
    destruct fuel; cbn [_BlackJackGame.dealer_draws];
      rewrite total_hand_hand_total;
      (replace (hand_total (Player.hand p) <? 18) with true
         by (symmetry; apply Z.ltb_lt; apply Hlow; cbn; lia)); done.
  - assert (hand_total (Player.hand p) < 18) as H0.
    { specialize (Hlow 0%nat). rewrite take_0, app_nil_r in Hlow.
      apply Hlow. lia. }
    rewrite length_app in Hfuel. cbn in Hfuel.
    destruct fuel as [|fuel]; [lia|]. cbn [_BlackJackGame.dealer_draws].
    rewrite total_hand_hand_total.
    replace (hand_total (Player.hand p) <? 18) with true
      by (symmetry; apply Z.ltb_lt; lia).
    erewrite deal_card_snoc by reflexivity. cbn [mbind result_bind CardDeck.discard].
    apply IH; [lia|]. intros k Hk. cbn [Player.append_hand Player.hand].
    rewrite <- (assoc_L (++)). specialize (Hlow (S k)).
    rewrite reverse_app in Hlow. apply Hlow. rewrite length_app. cbn. lia.
Qed.

(** ** The commands *)

Ltac game_simpl :=
  cbn [_BlackJackGame.cd _BlackJackGame.p1 _BlackJackGame.p2 _BlackJackGame.playing
       _BlackJackGame.quitting _BlackJackGame.random _BlackJackGame.stdout
       _BlackJackGame.set_players _BlackJackGame.set_playing _BlackJackGame.set_quitting
       _BlackJackGame.print _BlackJackGame.p1_wins _BlackJackGame.p2_wins
       _BlackJackGame.incr_score _BlackJackGame.print_scores
       Player.hand Player.score Player.append_hand
       CardDeck.deck CardDeck.discard mbind result_bind fst snd] in *.

Ltac print_succeeds H :=
  match goal with
  | |- context [_BlackJackGame.print_hand ?p ?g] =>
      let s := fresh "s" in
      let Hs := fresh "Hs" in
      destruct (print_hand_valid p g) as [s Hs];
      [game_simpl; exact H | rewrite Hs; game_simpl]
  end.

Ltac compare_totals :=
  repeat match goal with
  | H : (_ >? _) = true |- _ => apply Z.gtb_lt in H
  | H : (_ >? _) = false |- _ => rewrite Z.gtb_ltb in H; apply Z.ltb_ge in H
  | H : (_ >=? _) = true |- _ => rewrite Z.geb_leb in H; apply Z.leb_le in H
  | H : (_ >=? _) = false |- _ => rewrite Z.geb_leb in H; apply Z.leb_gt in H
  | H : (_ <=? _) = true |- _ => apply Z.leb_le in H
  | H : (_ <=? _) = false |- _ => apply Z.leb_gt in H
  | H : (_ <? _) = true |- _ => apply Z.ltb_lt in H
  | H : (_ <? _) = false |- _ => apply Z.ltb_ge in H
  end.

(** What [pass] and [stand] do when the draw pile holds the cards the
    dealer needs and the dealer's cards can be printed. *)
Lemma do_pass_valid (c : _BlackJackGame.command) (g : _BlackJackGame.t)
    (rest drawn : list Card.t) :
  c = _BlackJackGame.pass ∨ c = _BlackJackGame.stand →
  CardDeck.deck (_BlackJackGame.cd g) = rest ++ reverse drawn →
  (∀ k, (k < length drawn)%nat →
     hand_total (Player.hand (_BlackJackGame.p1 g) ++ take k drawn) < 18) →
  18 ≤ hand_total (Player.hand (_BlackJackGame.p1 g) ++ drawn) →
  Forall valid_rank (Player.hand (_BlackJackGame.p1 g) ++ drawn) →
  ∃ g',
    _BlackJackGame.onecmd c g = Ok (false, g')
    ∧ Player.hand (_BlackJackGame.p1 g') = Player.hand (_BlackJackGame.p1 g) ++ drawn
    ∧ _BlackJackGame.cd g' = CardDeck.mk rest (CardDeck.discard (_BlackJackGame.cd g))
    ∧ Player.hand (_BlackJackGame.p2 g') = Player.hand (_BlackJackGame.p2 g)
    ∧ _BlackJackGame.random g' = _BlackJackGame.random g
    ∧ _BlackJackGame.playing g' = false
    ∧ _BlackJackGame.quitting g' = false
    ∧ let d := Player.total_hand (_BlackJackGame.p1 g') in
      let p := Player.total_hand (_BlackJackGame.p2 g') in
      let s1 := Player.score (_BlackJackGame.p1 g) in
      let s2 := Player.score (_BlackJackGame.p2 g) in
      let s1' := Player.score (_BlackJackGame.p1 g') in
      let s2' := Player.score (_BlackJackGame.p2 g') in
      p = Player.total_hand (_BlackJackGame.p2 g)
      ∧ (21 < d → 21 < p → s1' = s1 ∧ s2' = s2)
      ∧ (21 < d → p ≤ 21 → s1' = s1 ∧ s2' = s2 + 1)
      ∧ (d ≤ 21 → p ≤ d → s1' = s1 + 1 ∧ s2' = s2)
      ∧ (d ≤ 21 → d < p → p ≤ 21 → s1' = s1 ∧ s2' = s2 + 1)
      ∧ (d ≤ 21 → d < p → 21 < p → s1' = s1 + 1 ∧ s2' = s2).
Proof.
  intros Hc Hdeck Hlow Hhigh Hvalid.
  assert (_BlackJackGame.onecmd c g = _BlackJackGame.do_pass g) as ->
    by (by destruct Hc as [-> | ->]).
  destruct g as [[deck discard] p1 p2 playing quitting r out].
  game_simpl. subst deck.
  unfold _BlackJackGame.do_pass. game_simpl.
  rewrite dealer_draws_stops; [|rewrite length_app, length_reverse; lia|done..].
  game_simpl. print_succeeds Hvalid.
  rewrite !total_hand_hand_total. game_simpl.
  remember (hand_total (Player.hand p1 ++ drawn)) as d eqn:Hd.
  remember (hand_total (Player.hand p2)) as p eqn:Hp.
  destruct (d >? 21) eqn:E1; [destruct (p >? 21) eqn:E2|
    destruct (d >=? p) eqn:E2; [|destruct (p <=? 21) eqn:E3]];
    eexists; (split; [reflexivity|]); cbv zeta;
    rewrite !total_hand_hand_total; game_simpl; rewrite <- ?Hd, <- ?Hp;
    compare_totals; split_and!; try done; intros; lia.
Qed.

(** ** The guard of [hit] *)

(** C3, counterexample.  A deck whose two piles are both empty: [hit]
    shuffles the empty discard pile in and pops from the empty draw pile. *)
Lemma hit_pops_empty_pile :
  Player.hit (Player.mk [Card.__init__ "Hearts" 5] 0) (CardDeck.mk [] [])
             (Random.mk (λ _, 0%nat) 0)
  = Raise IndexError.
Proof. reflexivity. Qed.

(** C3, as amended.  On a deck with a card in the draw pile or in the
    discard pile, [hit] returns: it does not pop from an empty draw pile.
    The dealer's draws in [pass] and [stand] have no such guard: when the
    draw pile runs out before the dealer's total reaches 18 they raise
    IndexError, whatever the discard pile holds. *)
Theorem hit_guards_pass_does_not (p : Player.t) (d : CardDeck.t) (r : Random.t)
    (g : _BlackJackGame.t) :
  CardDeck.deck d ≠ [] ∨ CardDeck.discard d ≠ [] →
  (∀ k, (k ≤ length (CardDeck.deck (_BlackJackGame.cd g)))%nat →
     hand_total (Player.hand (_BlackJackGame.p1 g)
                 ++ take k (reverse (CardDeck.deck (_BlackJackGame.cd g)))) < 18) →
  (∃ p' d' r', Player.hit p d r = Ok (p', d', r'))
  ∧ _BlackJackGame.do_pass g = Raise IndexError
  ∧ _BlackJackGame.do_stand g = Raise IndexError.
Proof.
  intros Hpiles Hlow. split.
  - destruct (decide (CardDeck.deck d = [])) as [Hd|Hd].
    + destruct Hpiles as [?|Hdis]; [done|].
      destruct (hit_recycle p d r Hd Hdis) as (rest & c & _ & ->). eauto.
    + destruct (pop_is_Some _ Hd) as (c & rest & E & _).
      rewrite (hit_draw _ _ _ _ _ E). eauto.
  - assert (_BlackJackGame.do_pass g = Raise IndexError) as H; [|done].
    unfold _BlackJackGame.do_pass. game_simpl.
    destruct g as [[deck discard] p1 p2 playing quitting r0 out]. game_simpl.
    by rewrite dealer_draws_exhausts.
Qed.

Lemma hit_guards_pass_does_not_witness :
  (∃ p' d' r',
     Player.hit Player.__init__ (CardDeck.mk [] [Card.__init__ "Hearts" 2]) tape0
     = Ok (p', d', r'))
  ∧ _BlackJackGame.do_pass short_pile = Raise IndexError
  ∧ _BlackJackGame.do_stand short_pile = Raise IndexError.
Proof.
  apply (hit_guards_pass_does_not Player.__init__
           (CardDeck.mk [] [Card.__init__ "Hearts" 2]) tape0 short_pile).
  - right. discriminate.
  - intros k Hk. destruct k as [|[|[|k]]]; [by vm_compute..|cbn in Hk; lia].
Defined.

(** ** Recycling the discards *)

Lemma shuffle_in_discards_moves d r :
  let d' := (CardDeck.shuffle_in_discards d r).1 in
  CardDeck.deck d' ≡ₚ CardDeck.deck d ++ CardDeck.discard d
  ∧ CardDeck.discard d' = [].
Proof.
  rewrite shuffle_in_discards_spec. cbn. split; [|done].
  apply shuffle_Permutation.
Qed.

(** C5.  From a draw pile of 52 cards and an empty discard pile, deal all
    52 cards to a hand and discard the hand: [shuffle_in_discards] then
    moves every card of the discard pile back, so the draw pile holds the
    same 52 cards again and the discard pile none.  On any deck it moves
    the whole discard pile into the draw pile and leaves it empty. *)
Theorem shuffle_in_discards_round_trip (d : CardDeck.t) (r : Random.t) (p : Player.t) :
  length (CardDeck.deck d) = 52%nat →
  CardDeck.discard d = [] →
  Player.hand p = [] →
  ∃ p1 d1 r1,
    hits 52 p d r = Ok (p1, d1, r1)
    ∧ length (Player.hand p1) = 52%nat
    ∧ CardDeck.deck d1 = []
    ∧ let d2 := (Player.discard p1 d1).2 in
      let d3 := (CardDeck.shuffle_in_discards d2 r1).1 in
      CardDeck.deck d2 = []
      ∧ length (CardDeck.discard d2) = 52%nat
      ∧ CardDeck.deck d3 ≡ₚ CardDeck.discard d2
      ∧ CardDeck.deck d3 ≡ₚ CardDeck.deck d
      ∧ length (CardDeck.deck d3) = 52%nat
      ∧ CardDeck.discard d3 = [].
Proof.
  destruct d as [deck discard], p as [hand score]. cbn [CardDeck.deck CardDeck.discard Player.hand].
  intros Hlen -> ->.
  pose proof (hits_draw (reverse deck) (Player.mk [] score) [] [] r) as H.
  rewrite length_reverse, Hlen, reverse_involutive in H. cbn [app Player.hand Player.score] in H.
  eexists _, _, _. split; [exact H|].
  cbn [CardDeck.deck CardDeck.discard Player.hand Player.discard snd app].
  rewrite shuffle_in_discards_spec.
  cbn [CardDeck.deck CardDeck.discard fst app].
  pose proof (shuffle_Permutation (reverse deck) r) as Hperm.
  split_and!; try done.
  - by rewrite length_reverse.
  - by rewrite length_reverse.
  - by rewrite Hperm, reverse_Permutation.
  - by rewrite Hperm, length_reverse.
Qed.

Lemma shuffle_in_discards_round_trip_witness :
  ∃ p1 d1 r1,
    hits 52 Player.__init__ (CardDeck.create_unshuffled_deck CardDeck.__init__) tape0
      = Ok (p1, d1, r1)
    ∧ length (CardDeck.deck
                (CardDeck.shuffle_in_discards (Player.discard p1 d1).2 r1).1) = 52%nat
    ∧ CardDeck.discard
        (CardDeck.shuffle_in_discards (Player.discard p1 d1).2 r1).1 = [].
Proof.
  destruct (shuffle_in_discards_round_trip
              (CardDeck.create_unshuffled_deck CardDeck.__init__) tape0 Player.__init__)
    as (p1 & d1 & r1 & H & _ & _ & _ & _ & _ & _ & Hlen & Hdis);
    [reflexivity..|].
  exists p1, d1, r1. split_and!; done.
Defined.

(** ** Leaving *)

Lemma leaves_do_no c g :
  leaves c = true → _BlackJackGame.onecmd c g = _BlackJackGame.do_no g.
Proof. by destruct c. Qed.

Lemma print_scores_stdout g :
  _BlackJackGame.stdout (_BlackJackGame.print_scores g)
  = _BlackJackGame.stdout g ++ score_lines g.
Proof.
  unfold _BlackJackGame.print_scores, score_lines. game_simpl.
  by rewrite <- !(assoc_L (++)).
Qed.

(** C7.  With a hand in progress and no request to leave pending, one of
    [no], [quit], [exit] and [EOF] does not end the session: it prints
    the warning and sets [quitting].  The same request right after it ends
    the session and prints the two scores, as does a request made when the
    round is over. *)
Theorem no_asks_before_leaving (c1 c2 : _BlackJackGame.command)
    (g over : _BlackJackGame.t) (rest : list _BlackJackGame.command) :
  leaves c1 = true → leaves c2 = true →
  _BlackJackGame.playing g = true → _BlackJackGame.quitting g = false →
  _BlackJackGame.playing over = false →
  let g1 := _BlackJackGame.print warning (_BlackJackGame.set_quitting true g) in
  let g2 := _BlackJackGame.print_scores g1 in
  _BlackJackGame.onecmd c1 g = Ok (false, g1)
  ∧ _BlackJackGame.quitting g1 = true
  ∧ _BlackJackGame.playing g1 = true
  ∧ _BlackJackGame.stdout g1 = _BlackJackGame.stdout g ++ [warning]
  ∧ _BlackJackGame.onecmd c2 g1 = Ok (true, g2)
  ∧ _BlackJackGame.stdout g2 = _BlackJackGame.stdout g ++ [warning] ++ score_lines g
  ∧ _BlackJackGame.run (c1 :: c2 :: rest) g = Ok (true, g2)
  ∧ _BlackJackGame.onecmd c1 over = Ok (true, _BlackJackGame.print_scores over)
  ∧ _BlackJackGame.stdout (_BlackJackGame.print_scores over)
      = _BlackJackGame.stdout over ++ score_lines over
  ∧ _BlackJackGame.run (c1 :: rest) over = Ok (true, _BlackJackGame.print_scores over).
Proof.
  intros Hc1 Hc2 Hplaying Hquitting Hover g1 g2.
  assert (_BlackJackGame.do_no g = Ok (false, g1)) as H1.
  { unfold _BlackJackGame.do_no. by rewrite Hplaying, Hquitting. }
  assert (_BlackJackGame.do_no g1 = Ok (true, g2)) as H2.
  { unfold _BlackJackGame.do_no. subst g1. game_simpl. by rewrite Hplaying. }
  assert (_BlackJackGame.do_no over = Ok (true, _BlackJackGame.print_scores over)) as H3.
  { unfold _BlackJackGame.do_no. by rewrite Hover. }
  split_and!.
  - by rewrite leaves_do_no.
  - done.
  - done.
  - done.
  - by rewrite leaves_do_no.
  - subst g2. rewrite print_scores_stdout. subst g1. game_simpl.
    by rewrite <- (assoc_L (++)).
  - cbn [_BlackJackGame.run]. rewrite (leaves_do_no c1), H1 by done.
    cbn [mbind result_bind]. by rewrite (leaves_do_no c2), H2 by done.
  - by rewrite leaves_do_no.
  - apply print_scores_stdout.
  - cbn [_BlackJackGame.run]. by rewrite (leaves_do_no c1), H3 by done.
Qed.

Lemma no_asks_before_leaving_witness :
  _BlackJackGame.onecmd _BlackJackGame.quit round0
    = Ok (false, _BlackJackGame.print warning (_BlackJackGame.set_quitting true round0))
  ∧ _BlackJackGame.run [_BlackJackGame.quit; _BlackJackGame.EOF; _BlackJackGame.hit] round0
    = Ok (true, _BlackJackGame.print_scores
                  (_BlackJackGame.print warning (_BlackJackGame.set_quitting true round0)))
  ∧ _BlackJackGame.stdout
      (_BlackJackGame.print_scores
         (_BlackJackGame.print warning (_BlackJackGame.set_quitting true round0)))
    = [warning; "Dealer score: "; "0"; "Player score: "; "0"].
Proof.
  destruct (no_asks_before_leaving _BlackJackGame.quit _BlackJackGame.EOF round0
              (_BlackJackGame.set_playing false round0) [_BlackJackGame.hit]
              eq_refl eq_refl eq_refl eq_refl eq_refl)
    as (H1 & _ & _ & _ & _ & H2 & H3 & _).
  split_and!; [exact H1|exact H3|exact H2].
Defined.

(** ** Where the cards are *)

Lemma cards_table g :
  cards g = table (Player.hand (_BlackJackGame.p1 g)) (Player.hand (_BlackJackGame.p2 g))
                  (_BlackJackGame.cd g).
Proof. reflexivity. Qed.

Lemma table_swap h1 h2 d : table h1 h2 d ≡ₚ table h2 h1 d.
Proof. unfold table. by rewrite !(assoc_L (++)), (comm (++) h1). Qed.

Lemma table_hit1 p d r p' d' r' h2 :
  Player.hit p d r = Ok (p', d', r') →
  Player.score p' = Player.score p
  ∧ table (Player.hand p') h2 d' ≡ₚ table (Player.hand p) h2 d.
Proof.
  intros (c & -> & Hc)%hit_Ok. split; [done|].
  unfold table. rewrite <- Hc. cbn [Player.append_hand Player.hand].
  rewrite <- (assoc_L (++)). f_equiv. cbn. apply Permutation_middle.
Qed.

Lemma table_hit2 p d r p' d' r' h1 :
  Player.hit p d r = Ok (p', d', r') →
  Player.score p' = Player.score p
  ∧ table h1 (Player.hand p') d' ≡ₚ table h1 (Player.hand p) d.
Proof.
  intros [Hs Ht]%(table_hit1 _ _ _ _ _ _ h1). split; [done|].
  by rewrite table_swap, Ht, table_swap.
Qed.

Lemma table_deal1 d c d' h1 h2 :
  CardDeck.deal_card d = Ok (c, d') → table (h1 ++ [c]) h2 d' ≡ₚ table h1 h2 d.
Proof.
  intros [Hd Hdis]%deal_card_Ok. unfold table. rewrite Hd, Hdis.
  rewrite <- !(assoc_L (++)). f_equiv. cbn.
  rewrite Permutation_middle. f_equiv.
  by rewrite Permutation_middle.
Qed.

Lemma table_discard1 p d h2 :
  table [] h2 (Player.discard p d).2 ≡ₚ table (Player.hand p) h2 d.
Proof.
  unfold table. cbn. rewrite (comm (++) (Player.hand p)).
  by rewrite <- !(assoc_L (++)).
Qed.

Lemma table_recycle h1 h2 d r :
  table h1 h2 (CardDeck.shuffle_in_discards d r).1 ≡ₚ table h1 h2 d.
Proof.
  unfold table. destruct (shuffle_in_discards_moves d r) as [-> ->].
  by rewrite app_nil_r.
Qed.

Lemma dealer_draws_Ok fuel p d p' d' :
  _BlackJackGame.dealer_draws fuel p d = Ok (p', d') →
  Player.score p' = Player.score p
  ∧ ∀ h2, table (Player.hand p') h2 d' ≡ₚ table (Player.hand p) h2 d.
Proof.
  revert p d. induction fuel as [|fuel IH]; intros p d;
    cbn [_BlackJackGame.dealer_draws]; destruct (_ <? 18).
  - by intros ([c d1] & _ & ?)%bind_Ok.
  - by intros [= <- <-].
  - intros ([c d1] & Hdeal & [Hs Ht]%IH)%bind_Ok. split; [done|].
    intros h2. rewrite Ht. by apply table_deal1.
  - by intros [= <- <-].
Qed.

Lemma start_game_Ok g g' :
  _BlackJackGame.start_game g = Ok g' →
  cards g' ≡ₚ cards g
  ∧ Player.score (_BlackJackGame.p1 g') = Player.score (_BlackJackGame.p1 g)
  ∧ Player.score (_BlackJackGame.p2 g') = Player.score (_BlackJackGame.p2 g)
  ∧ _BlackJackGame.playing g' = true
  ∧ _BlackJackGame.quitting g' = false.
Proof.
  unfold _BlackJackGame.start_game. intros H.
  apply bind_Ok in H as ([[p1a cda] ra] & H1 & H).
  apply bind_Ok in H as ([[p2a cdb] rb] & H2 & H).
  apply bind_Ok in H as ([[p1b cdc] rc] & H3 & H).
  apply bind_Ok in H as ([[p2b cdd] rd] & H4 & H).
  apply bind_Ok in H as (ga & [sa ->]%print_hand_Ok & H).
  apply bind_Ok in H as (gb & [sb ->]%print_hand_Ok & H).
  injection H as <-. rewrite !cards_table. game_simpl.
  apply (table_hit1 _ _ _ _ _ _ (Player.hand (_BlackJackGame.p2 g))) in H1 as [Hs1 Ht1].
  apply (table_hit2 _ _ _ _ _ _ (Player.hand p1a)) in H2 as [Hs2 Ht2].
  apply (table_hit1 _ _ _ _ _ _ (Player.hand p2a)) in H3 as [Hs3 Ht3].
  apply (table_hit2 _ _ _ _ _ _ (Player.hand p1b)) in H4 as [Hs4 Ht4].
  split_and!; [|congruence..|done|done].
  by rewrite Ht4, Ht3, Ht2, Ht1.
Qed.

Lemma start_game_not_Diverge g : _BlackJackGame.start_game g ≠ Diverge.
Proof.
  unfold _BlackJackGame.start_game.
  repeat (apply bind_not_Diverge; [apply hit_not_Diverge|intros [[? ?] ?] _]).
  apply bind_not_Diverge; [apply print_hand_not_Diverge|intros ? _].
  apply bind_not_Diverge; [apply print_hand_not_Diverge|intros ? _]. done.
Qed.

Lemma do_hit_Ok g b g' :
  _BlackJackGame.do_hit g = Ok (b, g') →
  b = false ∧ cards g' ≡ₚ cards g ∧ scores_step g g'.
Proof.
  unfold _BlackJackGame.do_hit, scores_step. game_simpl.
  destruct (_BlackJackGame.playing g).
  - intros H. apply bind_Ok in H as ([[p2a cda] ra] & H1 & H). game_simpl.
    apply (table_hit2 _ _ _ _ _ _ (Player.hand (_BlackJackGame.p1 g))) in H1 as [Hs Ht].
    destruct (_ <=? 21);
      apply bind_Ok in H as (ga & [sa ->]%print_hand_Ok & H);
      injection H as <- <-; rewrite !cards_table; game_simpl;
      (split_and!; [done|done|lia..]).
  - intros [= <- <-]. rewrite !cards_table. game_simpl. split_and!; [done..|lia|lia|lia].
Qed.

Lemma do_pass_Ok g b g' :
  _BlackJackGame.do_pass g = Ok (b, g') →
  b = false ∧ cards g' ≡ₚ cards g ∧ scores_step g g'.
Proof.
  unfold _BlackJackGame.do_pass, scores_step. game_simpl. intros H.
  apply bind_Ok in H as ([p1a cda] & [Hs Ht]%dealer_draws_Ok & H). game_simpl.
  apply bind_Ok in H as (ga & [sa ->]%print_hand_Ok & H). game_simpl.
  specialize (Ht (Player.hand (_BlackJackGame.p2 g))).
  destruct (_ >? 21); [destruct (_ >? 21)|
    destruct (_ >=? _); [|destruct (_ <=? 21)]];
    injection H as <- <-; rewrite !cards_table; game_simpl;
    (split_and!; [done|done|lia..]).
Qed.

Lemma do_pass_not_Diverge g : _BlackJackGame.do_pass g ≠ Diverge.
Proof.
  unfold _BlackJackGame.do_pass.
  apply bind_not_Diverge; [by apply dealer_draws_not_Diverge|intros [? ?] _].
  apply bind_not_Diverge; [apply print_hand_not_Diverge|intros ? _]. done.
Qed.

Lemma do_yes_Ok g b g' :
  _BlackJackGame.do_yes g = Ok (b, g') →
  b = false ∧ cards g' ≡ₚ cards g ∧ scores_step g g'.
Proof.
  unfold _BlackJackGame.do_yes, scores_step. game_simpl.
  destruct (_BlackJackGame.playing g); cbn [negb].
  - intros [= <- <-]. rewrite !cards_table. game_simpl. split_and!; [done..|lia|lia|lia].
  - intros H. cbn [Player.discard] in H. game_simpl.
    apply bind_Ok in H as (ga & (Hc & Hs1 & Hs2 & _)%start_game_Ok & H).
    injection H as <- <-. rewrite !cards_table in *. game_simpl.
    split_and!; [done| |lia..].
    rewrite Hc. unfold table. cbn.
    rewrite (comm (++) (Player.hand (_BlackJackGame.p1 g))).
    rewrite (comm (++) (Player.hand (_BlackJackGame.p2 g))).
    rewrite <- !(assoc_L (++)). do 2 f_equiv. apply (comm (++)).
Qed.

Lemma do_no_Ok g b g' :
  _BlackJackGame.do_no g = Ok (b, g') → cards g' ≡ₚ cards g ∧ scores_step g g'.
Proof.
  unfold _BlackJackGame.do_no, scores_step.
  destruct (_BlackJackGame.playing g), (_BlackJackGame.quitting g); cbn [negb];
    intros [= <- <-]; rewrite !cards_table; game_simpl; (split_and!; [done|lia..]).
Qed.

Lemma onecmd_Ok c g b g' :
  _BlackJackGame.onecmd c g = Ok (b, g') → cards g' ≡ₚ cards g ∧ scores_step g g'.
Proof.
  destruct c; cbn [_BlackJackGame.onecmd];
    unfold _BlackJackGame.do_stand, _BlackJackGame.do_newHand, _BlackJackGame.do_another,
      _BlackJackGame.do_EOF, _BlackJackGame.do_quit, _BlackJackGame.do_exit; intros H.
  1: by apply do_hit_Ok in H as (_ & ? & ?).
  1,2: by apply do_pass_Ok in H as (_ & ? & ?).
  1,2,3: by apply do_yes_Ok in H as (_ & ? & ?).
  all: by apply do_no_Ok in H.
Qed.

Lemma onecmd_not_Diverge c g : _BlackJackGame.onecmd c g ≠ Diverge.
Proof.
  assert (_BlackJackGame.do_yes g ≠ Diverge) as Hyes.
  { unfold _BlackJackGame.do_yes. destruct (negb _); [|done].
    cbn [Player.discard].
    apply bind_not_Diverge; [apply start_game_not_Diverge|done]. }
  assert (_BlackJackGame.do_no g ≠ Diverge) as Hno.
  { unfold _BlackJackGame.do_no. by destruct (negb _), (_BlackJackGame.quitting g). }
  destruct c; cbn [_BlackJackGame.onecmd]; try done; try apply do_pass_not_Diverge.
  unfold _BlackJackGame.do_hit. destruct (_BlackJackGame.playing _); [|done].
  apply bind_not_Diverge; [apply hit_not_Diverge|intros [[? ?] ?] _].
  destruct (_ <=? 21);
    (apply bind_not_Diverge; [apply print_hand_not_Diverge|done]).
Qed.

(** ** Sessions *)

Lemma apply_op_cards o g g' : apply_op o g = Ok g' → cards g' ≡ₚ cards g.
Proof.
  rewrite !cards_table. destruct o as [s|s|s| |c]; cbn [apply_op]; intros H.
  - apply bind_Ok in H as ([c cd] & Hdeal & [= <-]).
    destruct s; cbn [seat_player seated]; game_simpl.
    + by apply table_deal1.
    + rewrite table_swap, (table_swap (Player.hand (_BlackJackGame.p1 g))).
      by apply table_deal1.
  - apply bind_Ok in H as ([[p cd] r] & Hhit & [= <-]).
    destruct s; cbn [seat_player seated] in *; game_simpl.
    + by apply (table_hit1 _ _ _ _ _ _ (Player.hand (_BlackJackGame.p2 g))) in Hhit as [_ ?].
    + by apply (table_hit2 _ _ _ _ _ _ (Player.hand (_BlackJackGame.p1 g))) in Hhit as [_ ?].
  - cbn [Player.discard] in H. injection H as <-.
    destruct s; cbn [seat_player seated]; game_simpl.
    + apply (table_discard1 (_BlackJackGame.p1 g)).
    + rewrite table_swap, (table_swap (Player.hand (_BlackJackGame.p1 g))).
      apply (table_discard1 (_BlackJackGame.p2 g)).
  - rewrite shuffle_in_discards_spec in H. injection H as <-. game_simpl.
    rewrite <- (table_recycle _ _ (_BlackJackGame.cd g) (_BlackJackGame.random g)).
    by rewrite shuffle_in_discards_spec.
  - apply bind_Ok in H as ([b g1] & [Hc _]%onecmd_Ok & [= <-]).
    by rewrite <- !cards_table.
Qed.

Lemma init_cards r g : _BlackJackGame.__init__ r = Ok g → cards g ≡ₚ standard_deck.
Proof.
  unfold _BlackJackGame.__init__.
  rewrite create_unshuffled_deck_app, shuffle_deck_spec.
  intros (-> & _)%start_game_Ok. unfold cards. game_simpl. cbn [app].
  rewrite app_nil_r. apply shuffle_Permutation.
Qed.

Lemma session_snoc r ops o :
  session r (ops ++ [o]) = session r ops ≫= apply_op o.
Proof. unfold session. by rewrite fold_left_app. Qed.

Lemma session_cards r ops g : session r ops = Ok g → cards g ≡ₚ standard_deck.
Proof.
  revert g. induction ops as [|o ops IH] using rev_ind; intros g.
  - apply init_cards.
  - rewrite session_snoc. intros (g0 & Hg0 & Hop)%bind_Ok.
    rewrite (apply_op_cards _ _ _ Hop). by apply IH.
Qed.

Lemma standard_deck_built :
  Forall (λ c, valid_rank c ∧ c = Card.__init__ (Card.suit c) (Card.rank c)) standard_deck.
Proof.
  unfold standard_deck. cbn [suits CardDeck.ranks map concat app].
  repeat (apply List.Forall_cons;
          [split; [unfold valid_rank; cbn; lia|reflexivity]|]).
  apply List.Forall_nil.
Qed.

(** C4.  At every point of a session the cards of the two hands, of the
    draw pile and of the discard pile are the 52 cards of the deck, each
    in one place and once; dealing a card to a hand, a hit, a discard of a
    hand, a recycling of the discards and every command keep them so. *)
Theorem cards_stay_in_the_game (r : Random.t) (ops : list operation)
    (g : _BlackJackGame.t) :
  session r ops = Ok g →
  cards g ≡ₚ standard_deck
  ∧ NoDup (cards g)
  ∧ (length (Player.hand (_BlackJackGame.p1 g))
     + length (Player.hand (_BlackJackGame.p2 g))
     + length (CardDeck.deck (_BlackJackGame.cd g))
     + length (CardDeck.discard (_BlackJackGame.cd g)) = 52)%nat
  ∧ ∀ o g', apply_op o g = Ok g' →
      cards g' ≡ₚ cards g ∧ NoDup (cards g') ∧ length (cards g') = 52%nat.
Proof.
  intros Hperm%session_cards.
  assert (NoDup (cards g)) as Hnodup.
  { rewrite Hperm. apply standard_deck_NoDup. }
  split_and!; [done..| |].
  - apply Permutation_length in Hperm. revert Hperm.
    unfold cards. rewrite !length_app. cbn. lia.
  - intros o g' Hop%apply_op_cards. split_and!; [done|by rewrite Hop|].
    by rewrite Hop, Hperm.
Qed.

(** C10.  A command of the game loop lowers neither score and raises the
    two scores together by one at most; so does every command of a run. *)
Theorem scores_never_decrease (c : _BlackJackGame.command) (g g' : _BlackJackGame.t)
    (b : _BlackJackGame.stop) :
  _BlackJackGame.onecmd c g = Ok (b, g') →
  Player.score (_BlackJackGame.p1 g) ≤ Player.score (_BlackJackGame.p1 g')
  ∧ Player.score (_BlackJackGame.p2 g) ≤ Player.score (_BlackJackGame.p2 g')
  ∧ Player.score (_BlackJackGame.p1 g') + Player.score (_BlackJackGame.p2 g')
    ≤ Player.score (_BlackJackGame.p1 g) + Player.score (_BlackJackGame.p2 g) + 1
  ∧ ∀ lines b2 g2, _BlackJackGame.run lines g' = Ok (b2, g2) →
      Player.score (_BlackJackGame.p1 g') ≤ Player.score (_BlackJackGame.p1 g2)
      ∧ Player.score (_BlackJackGame.p2 g') ≤ Player.score (_BlackJackGame.p2 g2)
      ∧ Player.score (_BlackJackGame.p1 g2) + Player.score (_BlackJackGame.p2 g2)
        ≤ Player.score (_BlackJackGame.p1 g') + Player.score (_BlackJackGame.p2 g')
          + Z.of_nat (length lines).
Proof.
  intros [_ (H1 & H2 & H3)]%onecmd_Ok. split_and!; [done..|].
  clear. intros lines. revert g'.
  induction lines as [|c lines IH]; intros g b2 g2; cbn [_BlackJackGame.run].
  - intros [= <- <-]. cbn. lia.
  - intros ([b1 g1] & [_ (H1 & H2 & H3)]%onecmd_Ok & H)%bind_Ok.
    cbn [length]. destruct b1.
    + injection H as <- <-. lia.
    + apply IH in H. lia.
Qed.

Lemma cards_stay_in_the_game_witness :
  ∃ g,
    session tape0
      [op_hit player; op_command _BlackJackGame.pass; op_command _BlackJackGame.yes;
       op_deal dealer; op_discard dealer; op_recycle] = Ok g
    ∧ NoDup (cards g)
    ∧ (length (Player.hand (_BlackJackGame.p1 g))
       + length (Player.hand (_BlackJackGame.p2 g))
       + length (CardDeck.deck (_BlackJackGame.cd g))
       + length (CardDeck.discard (_BlackJackGame.cd g)) = 52)%nat.
Proof.
  destruct (session tape0
      [op_hit player; op_command _BlackJackGame.pass; op_command _BlackJackGame.yes;
       op_deal dealer; op_discard dealer; op_recycle]) as [g| |] eqn:E;
    [|by vm_compute in E..].
  exists g. split; [done|].
  destruct (cards_stay_in_the_game _ _ _ E) as (_ & Hnodup & Hlen & _).
  by split.
Defined.

Lemma scores_never_decrease_witness :
  ∃ g',
    _BlackJackGame.onecmd _BlackJackGame.hit round0 = Ok (false, g')
    ∧ 0 ≤ Player.score (_BlackJackGame.p1 g')
    ∧ 0 ≤ Player.score (_BlackJackGame.p2 g')
    ∧ Player.score (_BlackJackGame.p1 g') + Player.score (_BlackJackGame.p2 g') ≤ 1.
Proof.
  destruct (_BlackJackGame.onecmd _BlackJackGame.hit round0) as [[b g']| |] eqn:E;
    [|by vm_compute in E..].
  assert (b = false) as -> by (vm_compute in E; congruence).
  exists g'. split; [done|].
  destruct (scores_never_decrease _ _ _ _ E) as (H1 & H2 & H3 & _).
  by split_and!.
Defined.

(** C9.  A card built with a rank from 2 to 10 has that rank for value, and
    one built with rank 1, 11, 12 or 13 has value 10.  Nothing changes a
    card afterwards: at every point of a session, every card of the game
    still has the value its rank gave it when it was built. *)
Theorem card_value_fixed (suit : string) (r : Z) (seed : Random.t)
    (ops : list operation) (g : _BlackJackGame.t) (c : Card.t) :
  session seed ops = Ok g →
  c ∈ cards g →
  (2 ≤ r ≤ 10 → Card.value (Card.__init__ suit r) = r)
  ∧ (r = 1 ∨ r = 11 ∨ r = 12 ∨ r = 13 → Card.value (Card.__init__ suit r) = 10)
  ∧ c = Card.__init__ (Card.suit c) (Card.rank c)
  ∧ 1 ≤ Card.rank c ≤ 13
  ∧ Card.value c = value_of_rank (Card.rank c).
Proof.
  intros Hperm%session_cards Hc.
  assert (valid_rank c ∧ c = Card.__init__ (Card.suit c) (Card.rank c)) as [Hv Heq].
  { rewrite Hperm in Hc. apply list_elem_of_In in Hc.
    exact (proj1 (List.Forall_forall _ _) standard_deck_built c Hc). }
  split_and!; [| |done|apply Hv..|].
  - intros Hr. rewrite init_value. unfold value_of_rank.
    by rewrite bool_decide_true.
  - intros Hr. rewrite init_value. unfold value_of_rank.
    rewrite bool_decide_false; [done|lia].
  - rewrite Heq at 1. apply init_value.
Qed.

Lemma card_value_fixed_witness :
  Card.value (Card.__init__ "Hearts" 7) = 7
  ∧ Card.value (Card.__init__ "Hearts" 12) = 10
  ∧ Card.value (Card.__init__ "Clubs" 13) = value_of_rank 13.
Proof.
  destruct (session tape0 [op_command _BlackJackGame.hit]) as [g| |] eqn:E;
    [|by vm_compute in E..].
  assert (Card.__init__ "Clubs" 13 ∈ cards g) as Hin.
  { vm_compute in E. injection E as <-.
    apply (bool_decide_unpack _). by vm_compute. }
  destruct (card_value_fixed "Hearts" 7 tape0 _ g _ E Hin) as (H7 & _ & _ & _ & Hv).
  destruct (card_value_fixed "Hearts" 12 tape0 _ g _ E Hin) as (_ & H12 & _).
  split_and!; [apply H7; lia|apply H12; lia|exact Hv].
Defined.

(** ** The dealer's turn *)

Lemma session_valid seed ops g : session seed ops = Ok g → Forall valid_rank (cards g).
Proof.
  intros Hperm%session_cards. rewrite Hperm.
  eapply List.Forall_impl; [|apply standard_deck_built]. by intros c [? _].
Qed.

(** The loop on the game object is the loop of [dealer_draws]: the same
    dealer and deck when it ends, the same exception when it does not, and
    nothing but the dealer and the deck is touched either way. *)
Lemma dealer_loop_draws fuel g :
  _BlackJackGame.dealer_draws fuel (_BlackJackGame.p1 g) (_BlackJackGame.cd g)
  = match _BlackJackGame.dealer_loop fuel g with
    | (Ok _, g') => Ok (_BlackJackGame.p1 g', _BlackJackGame.cd g')
    | (Raise e, _) => Raise e
    | (Diverge, _) => Diverge
    end
  ∧ (let g' := (_BlackJackGame.dealer_loop fuel g).2 in
     _BlackJackGame.p2 g' = _BlackJackGame.p2 g
     ∧ _BlackJackGame.playing g' = _BlackJackGame.playing g
     ∧ _BlackJackGame.quitting g' = _BlackJackGame.quitting g
     ∧ _BlackJackGame.random g' = _BlackJackGame.random g
     ∧ _BlackJackGame.stdout g' = _BlackJackGame.stdout g
     ∧ Player.score (_BlackJackGame.p1 g') = Player.score (_BlackJackGame.p1 g)).
Proof.
  revert g. induction fuel as [|fuel IH]; intros g;
    cbn [_BlackJackGame.dealer_draws _BlackJackGame.dealer_loop];
    destruct (Player.total_hand (_BlackJackGame.p1 g) <? 18); try done;
    destruct (CardDeck.deal_card (_BlackJackGame.cd g)) as [[c d]| |]; try done.
  cbn [mbind result_bind].
  destruct (IH (_BlackJackGame.set_players (Player.append_hand (_BlackJackGame.p1 g) c)
                  (_BlackJackGame.p2 g) d (_BlackJackGame.random g) g)) as [Hrun Hrest].
  game_simpl. split; [exact Hrun|]. cbv zeta in *. game_simpl. exact Hrest.
Qed.

(** [do_pass_effect] returns and raises as [do_pass] does, with the same
    object when it returns. *)
Lemma do_pass_effect_outcome g :
  _BlackJackGame.do_pass g = _BlackJackGame.outcome (_BlackJackGame.do_pass_effect g).
Proof.
  unfold _BlackJackGame.do_pass, _BlackJackGame.do_pass_effect.
  destruct (dealer_loop_draws
              (length (CardDeck.deck (_BlackJackGame.cd (_BlackJackGame.set_quitting false g))))
              (_BlackJackGame.set_quitting false g)) as [Hrun Hrest].
  cbn [_BlackJackGame.p1 _BlackJackGame.cd _BlackJackGame.set_quitting] in Hrun.
  cbn [_BlackJackGame.p1 _BlackJackGame.cd _BlackJackGame.set_quitting].
  rewrite Hrun. cbv zeta in Hrest.
  destruct (_BlackJackGame.dealer_loop _ _) as [[[]| |] g1]; [|done..].
  cbn [snd] in Hrest. destruct Hrest as (Hp2 & Hplaying & Hquitting & Hrandom & Hout & _).
  destruct g1 as [d1 p1a p2a playing1 quitting1 r1 out1]. game_simpl. subst.
  unfold _BlackJackGame.print_hand. game_simpl.
  destruct (Player.print_friendly_hand p1a) as [s| |]; [|done..]. game_simpl.
  cbn [_BlackJackGame.outcome].
  destruct (_ >? 21); [destruct (_ >? 21)|
    destruct (_ >=? _); [|destruct (_ <=? 21)]]; reflexivity.
Qed.

(** The object that the loop leaves when the draw pile runs out: the whole
    pile has gone to the dealer's hand, top card first, and nothing else
    has changed. *)
Lemma dealer_loop_exhausts pile fuel g :
  CardDeck.deck (_BlackJackGame.cd g) = pile →
  (length pile ≤ fuel)%nat →
  (∀ k, (k ≤ length pile)%nat →
     hand_total (Player.hand (_BlackJackGame.p1 g) ++ take k (reverse pile)) < 18) →
  _BlackJackGame.dealer_loop fuel g
  = (Raise IndexError,
     _BlackJackGame.set_players
       (Player.mk (Player.hand (_BlackJackGame.p1 g) ++ reverse pile)
                  (Player.score (_BlackJackGame.p1 g)))
       (_BlackJackGame.p2 g)
       (CardDeck.mk [] (CardDeck.discard (_BlackJackGame.cd g)))
       (_BlackJackGame.random g) g).
Proof.
  revert fuel g. induction pile as [|c pile IH] using rev_ind; intros fuel g Hdeck Hfuel Hlow.
  - specialize (Hlow 0%nat). rewrite take_0, app_nil_r in Hlow.
    destruct g as [[deck discard] [h sc] p2 playing quitting r out]. game_simpl. subst deck.
    destruct fuel; cbn [_BlackJackGame.dealer_loop]; game_simpl;
      rewrite total_hand_hand_total; cbn [Player.hand];
      (replace (hand_total h <? 18) with true
         by (symmetry; apply Z.ltb_lt; apply Hlow; cbn; lia));
      rewrite deal_card_nil by done; cbn [reverse]; by rewrite app_nil_r.
  - assert (hand_total (Player.hand (_BlackJackGame.p1 g)) < 18) as H0.
    { specialize (Hlow 0%nat). rewrite take_0, app_nil_r in Hlow.
      apply Hlow. lia. }
    rewrite length_app in Hfuel. cbn in Hfuel.
    destruct fuel as [|fuel]; [lia|]. cbn [_BlackJackGame.dealer_loop].
    rewrite total_hand_hand_total.
    replace (hand_total (Player.hand (_BlackJackGame.p1 g)) <? 18) with true
      by (symmetry; apply Z.ltb_lt; lia).
    erewrite deal_card_snoc by exact Hdeck.
    rewrite IH.
    + game_simpl. rewrite reverse_app. cbn [reverse app].
      by rewrite <- (assoc_L (++)).
    + reflexivity.
    + lia.
    + intros k Hk. game_simpl. rewrite <- (assoc_L (++)). specialize (Hlow (S k)).
      rewrite reverse_app in Hlow. apply Hlow. rewrite length_app. cbn. lia.
Qed.

(** C2, counterexample.  A new game, nine rounds of [pass] and [yes], and
    [pass] again: the draw pile runs out under the dealer, no rule of the
    resolution is applied and [playing] is not set. *)
Lemma pass_runs_out_of_cards :
  (g ← _BlackJackGame.__init__ tape1; _BlackJackGame.run ten_passes g)
  = Raise IndexError.
Proof. by vm_compute. Qed.

(** C2, as amended.  [pass] and [stand], whatever [playing] and [quitting]
    are.  When the draw pile holds the cards the dealer needs, the dealer
    takes cards off the end of the draw pile, the discard pile staying as it
    is, up to the first total of 18 or more; then exactly one of the five
    rules of the resolution changes the scores, and [playing] is false.
    When the draw pile runs out before a total of 18, the command raises
    IndexError and leaves the object with the whole draw pile in the
    dealer's hand and [quitting] reset: nothing has been printed, neither
    score has changed and [playing] is what it was. *)
Theorem do_pass_resolves (seed : Random.t) (ops : list operation)
    (c : _BlackJackGame.command) (g : _BlackJackGame.t) :
  session seed ops = Ok g →
  c = _BlackJackGame.pass ∨ c = _BlackJackGame.stand →
  (∀ rest drawn : list Card.t,
     CardDeck.deck (_BlackJackGame.cd g) = rest ++ reverse drawn →
     (∀ k, (k < length drawn)%nat →
        hand_total (Player.hand (_BlackJackGame.p1 g) ++ take k drawn) < 18) →
     18 ≤ hand_total (Player.hand (_BlackJackGame.p1 g) ++ drawn) →
     ∃ g',
       _BlackJackGame.onecmd c g = Ok (false, g')
       ∧ Player.hand (_BlackJackGame.p1 g') = Player.hand (_BlackJackGame.p1 g) ++ drawn
       ∧ _BlackJackGame.cd g' = CardDeck.mk rest (CardDeck.discard (_BlackJackGame.cd g))
       ∧ Player.hand (_BlackJackGame.p2 g') = Player.hand (_BlackJackGame.p2 g)
       ∧ _BlackJackGame.random g' = _BlackJackGame.random g
       ∧ _BlackJackGame.playing g' = false
       ∧ _BlackJackGame.quitting g' = false
       ∧ let d := Player.total_hand (_BlackJackGame.p1 g') in
         let p := Player.total_hand (_BlackJackGame.p2 g') in
         let s1 := Player.score (_BlackJackGame.p1 g) in
         let s2 := Player.score (_BlackJackGame.p2 g) in
         let s1' := Player.score (_BlackJackGame.p1 g') in
         let s2' := Player.score (_BlackJackGame.p2 g') in
         p = Player.total_hand (_BlackJackGame.p2 g)
         ∧ (21 < d → 21 < p → s1' = s1 ∧ s2' = s2)
         ∧ (21 < d → p ≤ 21 → s1' = s1 ∧ s2' = s2 + 1)
         ∧ (d ≤ 21 → p ≤ d → s1' = s1 + 1 ∧ s2' = s2)
         ∧ (d ≤ 21 → d < p → p ≤ 21 → s1' = s1 ∧ s2' = s2 + 1)
         ∧ (d ≤ 21 → d < p → 21 < p → s1' = s1 + 1 ∧ s2' = s2))
  ∧ ((∀ k, (k ≤ length (CardDeck.deck (_BlackJackGame.cd g)))%nat →
        hand_total (Player.hand (_BlackJackGame.p1 g)
                    ++ take k (reverse (CardDeck.deck (_BlackJackGame.cd g)))) < 18) →
     _BlackJackGame.onecmd c g = Raise IndexError
     ∧ ∃ g',
         _BlackJackGame.do_pass_effect g = (Raise IndexError, g')
         ∧ _BlackJackGame.playing g' = _BlackJackGame.playing g
         ∧ Player.score (_BlackJackGame.p1 g') = Player.score (_BlackJackGame.p1 g)
         ∧ Player.score (_BlackJackGame.p2 g') = Player.score (_BlackJackGame.p2 g)
         ∧ _BlackJackGame.stdout g' = _BlackJackGame.stdout g
         ∧ Player.hand (_BlackJackGame.p2 g') = Player.hand (_BlackJackGame.p2 g)
         ∧ Player.hand (_BlackJackGame.p1 g')
           = Player.hand (_BlackJackGame.p1 g) ++ reverse (CardDeck.deck (_BlackJackGame.cd g))
         ∧ _BlackJackGame.cd g' = CardDeck.mk [] (CardDeck.discard (_BlackJackGame.cd g))
         ∧ _BlackJackGame.quitting g' = false)
  ∧ _BlackJackGame.onecmd c g = _BlackJackGame.outcome (_BlackJackGame.do_pass_effect g).
Proof.
  intros Hvalid%session_valid Hc.
  assert (_BlackJackGame.onecmd c g = _BlackJackGame.do_pass g) as Hcmd
    by (by destruct Hc as [-> | ->]).
  split_and!.
  - intros rest drawn Hdeck Hlow Hhigh.
    apply do_pass_valid; [done..|].
    unfold cards in Hvalid. rewrite Hdeck in Hvalid.
    rewrite !Forall_app in Hvalid. rewrite Forall_app.
    destruct Hvalid as (H1 & _ & (_ & Hdrawn) & _). split; [done|].
    by rewrite <- reverse_Permutation.
  - intros Hlow.
    assert (_BlackJackGame.do_pass_effect g
            = (Raise IndexError,
               _BlackJackGame.set_players
                 (Player.mk (Player.hand (_BlackJackGame.p1 g)
                             ++ reverse (CardDeck.deck (_BlackJackGame.cd g)))
                            (Player.score (_BlackJackGame.p1 g)))
                 (_BlackJackGame.p2 g)
                 (CardDeck.mk [] (CardDeck.discard (_BlackJackGame.cd g)))
                 (_BlackJackGame.random g)
                 (_BlackJackGame.set_quitting false g))) as Heffect.
    { unfold _BlackJackGame.do_pass_effect.
      rewrite (dealer_loop_exhausts (CardDeck.deck (_BlackJackGame.cd g)));
        [done|done|done|exact Hlow]. }
    split.
    + by rewrite Hcmd, do_pass_effect_outcome, Heffect.
    + eexists. split; [exact Heffect|]. game_simpl. by split_and!.
  - rewrite Hcmd. apply do_pass_effect_outcome.
Qed.

Lemma do_pass_resolves_witness :
  (∃ g g',
     session tape0 [] = Ok g
     ∧ _BlackJackGame.onecmd _BlackJackGame.pass g = Ok (false, g')
     ∧ Player.hand (_BlackJackGame.p1 g') =
         [Card.__init__ "Diamonds" 4; Card.__init__ "Spades" 5;
          Card.__init__ "Hearts" 6; Card.__init__ "Hearts" 13]
     ∧ Player.score (_BlackJackGame.p2 g') = 1
     ∧ _BlackJackGame.playing g' = false)
  ∧ (∃ g g',
       session tape1 (map op_command (take 18 ten_passes)) = Ok g
       ∧ _BlackJackGame.playing g = true
       ∧ _BlackJackGame.onecmd _BlackJackGame.pass g = Raise IndexError
       ∧ _BlackJackGame.do_pass_effect g = (Raise IndexError, g')
       ∧ _BlackJackGame.playing g' = true
       ∧ _BlackJackGame.stdout g' = _BlackJackGame.stdout g
       ∧ CardDeck.deck (_BlackJackGame.cd g') = []).
Proof.
  split.
  - destruct (session tape0 []) as [g| |] eqn:E; [|by vm_compute in E..].
    destruct (do_pass_resolves tape0 [] _BlackJackGame.pass g E (or_introl eq_refl))
      as (Hreturns & _).
    destruct (Hreturns (take 46 (CardDeck.deck (_BlackJackGame.cd g)))
                [Card.__init__ "Hearts" 6; Card.__init__ "Hearts" 13])
      as (g' & Hrun & Hh1 & _ & Hh2 & _ & Hplay & _ & Hres).
    + vm_compute in E. injection E as <-. by vm_compute.
    + intros k Hk. vm_compute in E. injection E as <-.
      destruct k as [|[|k]]; [by vm_compute..|cbn in Hk; lia].
    + vm_compute in E. injection E as <-. by vm_compute.
    + exists g, g'. cbv zeta in Hres.
      rewrite !total_hand_hand_total, Hh1, Hh2 in Hres.
      destruct Hres as (_ & _ & H2 & _).
      vm_compute in E. injection E as <-.
      split_and!; [done..| |done].
      apply H2; by vm_compute.
  - destruct (session tape1 (map op_command (take 18 ten_passes))) as [g| |] eqn:E;
      [|by vm_compute in E..].
    destruct (do_pass_resolves tape1 _ _BlackJackGame.pass g E (or_introl eq_refl))
      as (_ & Hraises & _).
    assert (_BlackJackGame.playing g = true) as Hplaying
      by (vm_compute in E; by injection E as <-).
    destruct Hraises as (Hraise & g' & Heffect & Hp & _ & _ & Hout & _ & _ & Hcd & _).
    + intros k Hk. vm_compute in E. injection E as <-.
      destruct k as [|[|k]]; [by vm_compute..|cbn in Hk; lia].
    + exists g, g'. rewrite Hcd, Hp. by split_and!.
Defined.

(** * The rest of the program *)

(** ** Cards as text, and their equality *)

Lemma str_invalid c : ¬ valid_rank c → Card.str c = Raise TypeError.
Proof.
  unfold valid_rank, Card.str, Card.__str__. intros Hv.
  destruct ((Card.rank c >? 1) && (Card.rank c <? 11)) eqn:E.
  { apply andb_true_iff in E as [E1%Z.gtb_lt E2%Z.ltb_lt]. lia. }
  destruct (Z.eqb_spec (Card.rank c) 1); [lia|].
  destruct (Z.eqb_spec (Card.rank c) 11); [lia|].
  destruct (Z.eqb_spec (Card.rank c) 12); [lia|].
  destruct (Z.eqb_spec (Card.rank c) 13); [lia|]. done.
Qed.

(** X1.  [str(card)] returns a description exactly for the ranks 1 to 13;
    for any other rank [__str__] falls through its branches, returns None,
    and [str] raises TypeError. *)
Theorem str_needs_rank_of_pack (c : Card.t) :
  (valid_rank c ↔ ∃ s, Card.str c = Ok s)
  ∧ (¬ valid_rank c ↔ Card.str c = Raise TypeError).
Proof.
  destruct (decide (valid_rank c)) as [Hv|Hv].
  - destruct (str_valid c Hv) as [s Hs]. rewrite Hs. split; split; eauto; done.
  - rewrite (str_invalid c Hv).
    split; split; try done. by intros [s ?].
Qed.

Lemma valid_rank_cases c :
  valid_rank c →
  Card.rank c ∈ CardDeck.ranks.
Proof.
  unfold valid_rank, CardDeck.ranks. rewrite !elem_of_cons, elem_of_nil. lia.
Qed.

(** X2.  Two cards with ranks of the pack that print alike have the same
    rank and the same suit: the description tells a card from every other. *)
Theorem str_tells_cards_apart (c1 c2 : Card.t) :
  valid_rank c1 → valid_rank c2 →
  Card.__str__ c1 = Card.__str__ c2 →
  Card.rank c1 = Card.rank c2 ∧ Card.suit c1 = Card.suit c2.
Proof.
  intros H1%valid_rank_cases H2%valid_rank_cases.
  destruct c1 as [s1 r1 v1], c2 as [s2 r2 v2]. cbn [Card.rank Card.suit] in *.
  unfold CardDeck.ranks in H1, H2.
  rewrite !elem_of_cons, elem_of_nil in H1, H2.
  unfold Card.__str__. cbn [Card.rank Card.suit].
  repeat (destruct H1 as [->|H1]); try done;
    repeat (destruct H2 as [->|H2]); try done;
    vm_compute; intros H; by simplify_eq.
Qed.

Lemma str_tells_cards_apart_witness :
  Card.rank (Card.__init__ "Hearts" 12) = Card.rank (Card.mk "Hearts" 12 0)
  ∧ Card.suit (Card.__init__ "Hearts" 12) = Card.suit (Card.mk "Hearts" 12 0).
Proof.
  apply str_tells_cards_apart; [by vm_compute..|reflexivity].
Defined.

(** X3.  [==] on cards is equality of suit, rank and value, so for cards
    built by [Card.__init__] it is equality of suit and rank; a card equals
    no object of another type, and [!=] is the negation of [==]. *)
Theorem eq_is_structural (c c' : Card.t) (s s' : string) (r r' : Z) (o : Card.object) :
  (Card.__eq__ c (Card.card c') = true ↔ c = c')
  ∧ (Card.__eq__ (Card.__init__ s r) (Card.card (Card.__init__ s' r')) = true
     ↔ s = s' ∧ r = r')
  ∧ Card.__eq__ c Card.other = false
  ∧ Card.__eq__ c (Card.card c) = true
  ∧ Card.__eq__ c (Card.card c') = Card.__eq__ c' (Card.card c)
  ∧ Card.__ne__ c o = negb (Card.__eq__ c o).
Proof.
  assert (∀ a b, Card.__eq__ a (Card.card b) = true ↔ a = b) as Heq.
  { intros [s1 r1 v1] [s2 r2 v2]. cbn.
    rewrite !andb_true_iff, String.eqb_eq, !Z.eqb_eq. split.
    - by intros [[-> ->] ->].
    - by intros [= -> -> ->]. }
  split_and!; [apply Heq| |done|by apply Heq| |done].
  - rewrite Heq. split.
    + by intros [= -> ->].
    + by intros [-> ->].
  - destruct (Card.__eq__ c (Card.card c')) eqn:E.
    + apply Heq in E as ->. symmetry. by apply Heq.
    + destruct (Card.__eq__ c' (Card.card c)) eqn:E'; [|done].
      apply Heq in E' as ->. rewrite (proj2 (Heq c c) eq_refl) in E. done.
Qed.

(** ** The text of a hand *)

Lemma append_cons x (a b : string) : String x a +:+ b = String x (a +:+ b).
Proof. reflexivity. Qed.

Lemma append_assoc_string (a b c : string) : (a +:+ b) +:+ c = a +:+ (b +:+ c).
Proof. induction a as [|x a IH]; [done|]. by rewrite !append_cons, IH. Qed.

Lemma append_nil_r (a : string) : a +:+ "" = a.
Proof. induction a as [|x a IH]; [done|]. by rewrite append_cons, IH. Qed.

Lemma length_append_string (a b : string) :
  String.length (a +:+ b) = (String.length a + String.length b)%nat.
Proof.
  induction a as [|x a IH]; [done|].
  rewrite append_cons. cbn [String.length]. by rewrite IH.
Qed.

Lemma drop_last2_append (a b : string) :
  (2 ≤ String.length b)%nat →
  Player.drop_last2 (a +:+ b) = a +:+ Player.drop_last2 b.
Proof.
  unfold Player.drop_last2. intros Hb. induction a as [|x a IH]; [done|].
  rewrite !append_cons. cbn [String.length].
  replace (S (String.length (a +:+ b)) - 2)%nat
    with (S (String.length (a +:+ b) - 2))%nat
    by (rewrite length_append_string; lia).
  cbn [String.substring]. by rewrite IH.
Qed.

(** The text the loop of [print_friendly_hand] builds: every description
    followed by a comma and a space. *)
Lemma hand_loop h descs acc :
  Forall2 (λ c s, Card.__str__ c = Some s) h descs →
  fold_left (λ acc card, text ← acc; s ← Card.str card; Ok (text +:+ s +:+ ", "))
    h (Ok acc)
  = Ok (acc +:+ String.concat "" (map (λ s, s +:+ ", ") descs)).
Proof.
  intros H. revert acc. induction H as [|c s h descs Hc _ IH]; intros acc.
  - cbn [fold_left map String.concat]. by rewrite append_nil_r.
  - cbn [fold_left map]. unfold Card.str at 2. rewrite Hc. cbn [mbind result_bind].
    rewrite IH. f_equal. rewrite append_assoc_string. f_equal.
    destruct descs as [|s' descs]; cbn [map String.concat].
    + by rewrite append_nil_r.
    + done.
Qed.

Lemma drop_last2_trailing descs :
  Player.drop_last2 (String.concat "" (map (λ s, s +:+ ", ") descs))
  = String.concat ", " descs.
Proof.
  induction descs as [|s descs IH]; [done|].
  destruct descs as [|s' descs].
  - cbn [map String.concat].
    rewrite drop_last2_append by (change (String.length ", ") with 2%nat; lia).
    change (Player.drop_last2 ", ") with ""%string. apply append_nil_r.
  - change (String.concat ", " (s :: s' :: descs))
      with (s +:+ ", " +:+ String.concat ", " (s' :: descs)).
    rewrite <- IH.
    change (String.concat "" (map (λ s, s +:+ ", ") (s :: s' :: descs)))
      with ((s +:+ ", ") +:+ "" +:+
            String.concat "" (map (λ s, s +:+ ", ") (s' :: descs))).
    change ("" +:+ ?x) with x.
    rewrite append_assoc_string. rewrite !drop_last2_append; [done| |].
    + destruct descs; cbn [map String.concat];
        rewrite ?length_append_string;
        change (String.length ", ") with 2%nat; lia.
    + rewrite length_append_string. change (String.length ", ") with 2%nat. lia.
Qed.

(** X4.  [print_friendly_hand] returns the descriptions of the cards of the
    hand, in order, separated by a comma and a space, with nothing after
    the last one (and the empty text for an empty hand). *)
Theorem print_friendly_hand_joins (p : Player.t) (descs : list string) :
  Forall2 (λ c s, Card.__str__ c = Some s) (Player.hand p) descs →
  Player.print_friendly_hand p = Ok (String.concat ", " descs).
Proof.
  intros H. unfold Player.print_friendly_hand.
  rewrite (hand_loop _ _ _ H). cbn [mbind result_bind].
  change ("" +:+ ?x) with x. by rewrite drop_last2_trailing.
Qed.

Lemma print_friendly_hand_joins_witness :
  Player.print_friendly_hand
    (Player.mk [Card.__init__ "Clubs" 13; Card.__init__ "Clubs" 12] 0)
  = Ok "King of Clubs, Queen of Clubs"%string.
Proof.
  apply (print_friendly_hand_joins
           (Player.mk [Card.__init__ "Clubs" 13; Card.__init__ "Clubs" 12] 0)
           ["King of Clubs"; "Queen of Clubs"]%string).
  repeat constructor.
Defined.

Lemma hand_loop_raised h e :
  fold_left (λ acc card, text ← acc; s ← Card.str card; Ok (text +:+ s +:+ ", "))
    h (Raise e) = (Raise e : result string).
Proof. induction h as [|c h IH]; [done|]. apply IH. Qed.

Lemma hand_loop_invalid h text :
  Exists (λ c, ¬ valid_rank c) h →
  fold_left (λ acc card, text ← acc; s ← Card.str card; Ok (text +:+ s +:+ ", "))
    h (Ok text) = Raise TypeError.
Proof.
  intros H. revert text. induction H as [c h Hc|c h _ IH]; intros text;
    cbn [fold_left mbind result_bind].
  - rewrite (str_invalid c Hc). cbn [mbind result_bind]. apply hand_loop_raised.
  - destruct (decide (valid_rank c)) as [Hv|Hv].
    + destruct (str_valid c Hv) as [s ->]. cbn [mbind result_bind]. apply IH.
    + rewrite (str_invalid c Hv). cbn [mbind result_bind]. apply hand_loop_raised.
Qed.

(** X5.  [print_friendly_hand] raises TypeError exactly when the hand holds
    a card whose rank is not one of 1 to 13, and returns a text otherwise. *)
Theorem print_friendly_hand_needs_ranks (p : Player.t) :
  (Forall valid_rank (Player.hand p) ↔ ∃ s, Player.print_friendly_hand p = Ok s)
  ∧ (Exists (λ c, ¬ valid_rank c) (Player.hand p)
     ↔ Player.print_friendly_hand p = Raise TypeError).
Proof.
  destruct (decide (Forall valid_rank (Player.hand p))) as [Hall|Hnot].
  - destruct (print_friendly_hand_valid p Hall) as [s Hs]. rewrite Hs.
    split; split; eauto; try done.
    intros Hex. by apply (Exists_not_Forall valid_rank) in Hex.
  - assert (Exists (λ c, ¬ valid_rank c) (Player.hand p)) as Hex.
    { apply not_Forall_Exists in Hnot; [exact Hnot|apply _]. }
    assert (Player.print_friendly_hand p = Raise TypeError) as ->.
    { unfold Player.print_friendly_hand. by rewrite hand_loop_invalid. }
    split; split; try done. by intros [s ?].
Qed.

(** ** The deck on its own *)

(** X6.  [deal_card] raises IndexError exactly on an empty draw pile;
    otherwise it returns the last card of the draw pile and leaves the
    cards before it in place and the discard pile alone, so that the
    length of the deck goes down by one. *)
Theorem deal_card_takes_top (d : CardDeck.t) :
  (CardDeck.deal_card d = Raise IndexError ↔ CardDeck.deck d = [])
  ∧ (∀ c d', CardDeck.deal_card d = Ok (c, d')
       ↔ CardDeck.deck d = CardDeck.deck d' ++ [c]
         ∧ CardDeck.discard d' = CardDeck.discard d)
  ∧ (∀ c d', CardDeck.deal_card d = Ok (c, d') →
       CardDeck.__len__ d' = CardDeck.__len__ d - 1).
Proof.
  split_and!.
  - split; [|apply deal_card_nil].
    unfold CardDeck.deal_card.
    destruct (pop (CardDeck.deck d)) as [[c rest]|] eqn:E; [done|].
    intros _. by apply pop_nil_inv.
  - intros c d'. split; [apply deal_card_Ok|].
    intros [Hd Hdis]. rewrite (deal_card_snoc _ _ _ Hd), <- Hdis. by destruct d'.
  - intros c d' [Hd _]%deal_card_Ok. unfold CardDeck.__len__.
    rewrite Hd, length_app. cbn. lia.
Qed.

(** X7.  [shuffle_deck] rearranges the draw pile and nothing else: the
    draw pile holds the same cards as before, as many, and the discard
    pile is untouched; a draw pile of one card or none stays as it is. *)
Theorem shuffle_deck_keeps_cards (d : CardDeck.t) (r : Random.t) :
  let d' := (CardDeck.shuffle_deck d r).1 in
  CardDeck.deck d' ≡ₚ CardDeck.deck d
  ∧ CardDeck.discard d' = CardDeck.discard d
  ∧ CardDeck.__len__ d' = CardDeck.__len__ d
  ∧ ((length (CardDeck.deck d) ≤ 1)%nat → CardDeck.shuffle_deck d r = (d, r)).
Proof.
  cbv zeta. rewrite shuffle_deck_spec. cbn [fst CardDeck.deck CardDeck.discard].
  pose proof (shuffle_Permutation (CardDeck.deck d) r) as Hperm.
  split_and!; [done|done| |].
  - unfold CardDeck.__len__. cbn [CardDeck.deck]. by rewrite Hperm.
  - intros Hlen. unfold Random.shuffle.
    replace (length (CardDeck.deck d) - 1)%nat with 0%nat by lia.
    cbn. by destruct d.
Qed.

(** X8.  [_append_suit_to_deck] adds the thirteen cards of the suit, ace
    to king, after the cards the draw pile already holds, and
    [create_unshuffled_deck] adds the four suits in the same way without
    emptying the deck first: the deck grows by 52 cards, and building it a
    second time puts every card in the draw pile twice. *)
Theorem create_unshuffled_deck_appends (self : CardDeck.t) (suit : string) :
  CardDeck.deck (CardDeck._append_suit_to_deck self suit)
    = CardDeck.deck self ++ map (Card.__init__ suit) CardDeck.ranks
  ∧ CardDeck.deck (CardDeck.create_unshuffled_deck self)
    = CardDeck.deck self ++ standard_deck
  ∧ CardDeck.discard (CardDeck.create_unshuffled_deck self) = CardDeck.discard self
  ∧ CardDeck.__len__ (CardDeck.create_unshuffled_deck self)
    = CardDeck.__len__ self + 52
  ∧ ¬ NoDup (CardDeck.deck
               (CardDeck.create_unshuffled_deck (CardDeck.create_unshuffled_deck self))).
Proof.
  rewrite append_suit, !create_unshuffled_deck_app.
  cbn [CardDeck.deck CardDeck.discard]. split_and!; [done..| |].
  - unfold CardDeck.__len__. cbn [CardDeck.deck]. rewrite length_app.
    change (length standard_deck) with 52%nat. lia.
  - intros (_ & Hdisj & _)%list.NoDup_app.
    apply (Hdisj (Card.__init__ "Diamonds" 1)).
    + apply elem_of_app. right. by apply standard_deck_covers; [left|].
    + by apply standard_deck_covers; [left|].
Qed.

(** ** Hands *)

Lemma hand_total_formula h :
  hand_total h =
    if raw_total h >? 21 then raw_total h - 9 * Z.of_nat (aces h) else raw_total h.
Proof.
  unfold hand_total, Player.total_hand. cbn [Player.hand].
  rewrite sum_loop, Z.add_0_l. destruct (_ >? 21); [apply ace_loop|done].
Qed.

Lemma raw_total_Permutation h1 h2 : h1 ≡ₚ h2 → raw_total h1 = raw_total h2.
Proof.
  unfold raw_total. induction 1; cbn; lia.
Qed.

Lemma aces_Permutation h1 h2 : h1 ≡ₚ h2 → aces h1 = aces h2.
Proof. unfold aces. by intros ->. Qed.

(** X9.  The total of a hand does not depend on the order of its cards. *)
Theorem total_hand_any_order (p q : Player.t) :
  Player.hand p ≡ₚ Player.hand q → Player.total_hand p = Player.total_hand q.
Proof.
  intros H. rewrite !total_hand_hand_total, !hand_total_formula.
  by rewrite (raw_total_Permutation _ _ H), (aces_Permutation _ _ H).
Qed.

Lemma total_hand_any_order_witness :
  Player.total_hand
    (Player.mk [Card.__init__ "Hearts" 1; Card.__init__ "Clubs" 9; Card.__init__ "Spades" 5] 0)
  = Player.total_hand
      (Player.mk [Card.__init__ "Spades" 5; Card.__init__ "Hearts" 1; Card.__init__ "Clubs" 9] 3).
Proof.
  apply total_hand_any_order. cbn [Player.hand].
  apply (Permutation_app_comm [_; _] [_]).
Defined.

Lemma built_value c :
  built c → 2 ≤ Card.value c ≤ 10 ∧ (Card.rank c = 1 → Card.value c = 10).
Proof.
  intros [Hv Hc].
  assert (Card.value c = value_of_rank (Card.rank c)) as ->.
  { rewrite Hc at 1. apply init_value. }
  unfold value_of_rank, valid_rank in *. case_bool_decide; lia.
Qed.

Lemma built_totals h :
  Forall built h →
  2 * Z.of_nat (length h) ≤ raw_total h ≤ 10 * Z.of_nat (length h)
  ∧ Z.of_nat (length h) ≤ raw_total h - 9 * Z.of_nat (aces h).
Proof.
  unfold raw_total, aces. induction 1 as [|c h Hc _ IH]; [cbn; lia|].
  apply built_value in Hc as [Hv Hace].
  rewrite filter_cons. cbn [foldr length].
  destruct (decide (Card.rank c = 1)) as [E|E]; cbn [length]; [specialize (Hace E)|]; lia.
Qed.

Lemma built_hand_total h :
  Forall built h →
  Z.of_nat (length h) ≤ hand_total h ≤ 10 * Z.of_nat (length h).
Proof.
  intros [Hraw Hsoft]%built_totals. rewrite hand_total_formula.
  destruct (_ >? 21); lia.
Qed.

(** X10.  For cards built with ranks of the pack, the total of a hand is at
    least the number of its cards and at most ten times that number; so a
    hand that totals 21 or less holds 21 cards at most. *)
Theorem total_hand_bounds (p : Player.t) :
  Forall built (Player.hand p) →
  Z.of_nat (length (Player.hand p)) ≤ Player.total_hand p
  ∧ Player.total_hand p ≤ 10 * Z.of_nat (length (Player.hand p))
  ∧ (Player.total_hand p ≤ 21 → (length (Player.hand p) ≤ 21)%nat).
Proof.
  intros H%built_hand_total. rewrite total_hand_hand_total. lia.
Qed.

Lemma total_hand_bounds_witness :
  3 ≤ Player.total_hand
        (Player.mk [Card.__init__ "Hearts" 1; Card.__init__ "Clubs" 1; Card.__init__ "Spades" 1] 0).
Proof.
  apply (total_hand_bounds
           (Player.mk [Card.__init__ "Hearts" 1; Card.__init__ "Clubs" 1;
                       Card.__init__ "Spades" 1] 0)).
  repeat constructor; by vm_compute.
Defined.

(** X11.  [discard] moves the cards of the hand, in order, to the end of
    the discard pile, empties the hand and keeps the score and the draw
    pile; on a hand that is already empty it changes nothing, so a second
    [discard] is without effect. *)
Theorem discard_moves_hand (p : Player.t) (d : CardDeck.t) :
  let p' := (Player.discard p d).1 in
  let d' := (Player.discard p d).2 in
  Player.hand p' = []
  ∧ Player.score p' = Player.score p
  ∧ CardDeck.deck d' = CardDeck.deck d
  ∧ CardDeck.discard d' = CardDeck.discard d ++ Player.hand p
  ∧ Player.discard p' d' = (p', d').
Proof.
  cbv zeta. split_and!; [done..|].
  unfold Player.discard. cbn [fst snd Player.hand Player.score CardDeck.deck CardDeck.discard].
  by rewrite app_nil_r.
Qed.

(** ** The dealer's turn, read backwards *)

Lemma dealer_draws_stands fuel p d :
  18 ≤ Player.total_hand p → _BlackJackGame.dealer_draws fuel p d = Ok (p, d).
Proof.
  intros H. destruct fuel; cbn [_BlackJackGame.dealer_draws];
    by replace (Player.total_hand p <? 18) with false by (symmetry; apply Z.ltb_ge; lia).
Qed.

(** What the loop has done when it returns. *)
Lemma dealer_draws_inv fuel p d p' d' :
  _BlackJackGame.dealer_draws fuel p d = Ok (p', d') →
  ∃ drawn,
    CardDeck.deck d = CardDeck.deck d' ++ reverse drawn
    ∧ Player.hand p' = Player.hand p ++ drawn
    ∧ CardDeck.discard d' = CardDeck.discard d
    ∧ Player.score p' = Player.score p
    ∧ 18 ≤ hand_total (Player.hand p')
    ∧ ∀ k, (k < length drawn)%nat → hand_total (Player.hand p ++ take k drawn) < 18.
Proof.
  revert p d. induction fuel as [|fuel IH]; intros p d;
    cbn [_BlackJackGame.dealer_draws]; rewrite total_hand_hand_total;
    destruct (hand_total (Player.hand p) <? 18) eqn:E.
  - by intros ([c d1] & _ & ?)%bind_Ok.
  - intros [= <- <-]. exists []. rewrite !app_nil_r. apply Z.ltb_ge in E.
    split_and!; [done..|]. intros k Hk. cbn in Hk. lia.
  - intros ([c d1] & [Hd Hdis]%deal_card_Ok & H)%bind_Ok.
    apply IH in H as (drawn & Hd1 & Hh & Hdis1 & Hs & Hhigh & Hlow).
    cbn [Player.append_hand Player.hand Player.score] in *.
    exists (c :: drawn). rewrite reverse_cons, (assoc_L (++)), <- Hd1.
    split_and!; [done|by rewrite Hh, <- (assoc_L (++))|congruence|done|done|].
    intros [|k] Hk.
    + rewrite take_0, app_nil_r. by apply Z.ltb_lt.
    + cbn [take]. specialize (Hlow k ltac:(cbn in Hk; lia)).
      rewrite <- (assoc_L (++)) in Hlow. exact Hlow.
  - intros [= <- <-]. exists []. rewrite !app_nil_r. apply Z.ltb_ge in E.
    split_and!; [done..|]. intros k Hk. cbn in Hk. lia.
Qed.

Lemma dealer_draws_outcome fuel p d :
  (∃ p' d', _BlackJackGame.dealer_draws fuel p d = Ok (p', d'))
  ∨ _BlackJackGame.dealer_draws fuel p d = Raise IndexError
  ∨ _BlackJackGame.dealer_draws fuel p d = Diverge.
Proof.
  revert p d. induction fuel as [|fuel IH]; intros p d;
    cbn [_BlackJackGame.dealer_draws]; destruct (_ <? 18); eauto.
  - unfold CardDeck.deal_card. destruct (pop _) as [[c rest]|]; cbn; eauto.
  - unfold CardDeck.deal_card. destruct (pop _) as [[c rest]|]; cbn; eauto.
Qed.

Lemma print_friendly_hand_hand p q :
  Player.hand p = Player.hand q →
  Player.print_friendly_hand p = Player.print_friendly_hand q.
Proof. unfold Player.print_friendly_hand. by intros ->. Qed.

Lemma points_cases d p :
  points d p = (0, 0) ∨ points d p = (0, 1) ∨ points d p = (1, 0).
Proof.
  unfold points. destruct (d >? 21), (p >? 21), (d >=? p), (p <=? 21); auto.
Qed.

(** What [do_pass] has done when it returns: the dealer's draws returned,
    the dealer's hand was printed, and the points of the round were added. *)
Lemma do_pass_inv g b g' :
  _BlackJackGame.do_pass g = Ok (b, g') →
  b = false
  ∧ ∃ p1a s,
      _BlackJackGame.dealer_draws (length (CardDeck.deck (_BlackJackGame.cd g)))
        (_BlackJackGame.p1 g) (_BlackJackGame.cd g) = Ok (p1a, _BlackJackGame.cd g')
      ∧ Player.print_friendly_hand p1a = Ok s
      ∧ Player.hand (_BlackJackGame.p1 g') = Player.hand p1a
      ∧ Player.hand (_BlackJackGame.p2 g') = Player.hand (_BlackJackGame.p2 g)
      ∧ Player.score (_BlackJackGame.p1 g')
        = Player.score (_BlackJackGame.p1 g)
          + (points (hand_total (Player.hand p1a))
                    (hand_total (Player.hand (_BlackJackGame.p2 g)))).1
      ∧ Player.score (_BlackJackGame.p2 g')
        = Player.score (_BlackJackGame.p2 g)
          + (points (hand_total (Player.hand p1a))
                    (hand_total (Player.hand (_BlackJackGame.p2 g)))).2
      ∧ _BlackJackGame.playing g' = false
      ∧ _BlackJackGame.quitting g' = false
      ∧ _BlackJackGame.random g' = _BlackJackGame.random g.
Proof.
  unfold _BlackJackGame.do_pass. game_simpl. intros H.
  apply bind_Ok in H as ([p1a cda] & Hdraws & H). game_simpl.
  pose proof (dealer_draws_Ok _ _ _ _ _ Hdraws) as [Hs _].
  unfold _BlackJackGame.print_hand in H.
  apply bind_Ok in H as (ga & (s & Hprint & [= <-])%bind_Ok & H). game_simpl.
  rewrite !total_hand_hand_total in H. game_simpl. unfold points.
  remember (hand_total (Player.hand p1a)) as d eqn:Hd.
  remember (hand_total (Player.hand (_BlackJackGame.p2 g))) as p eqn:Hp.
  destruct (d >? 21) eqn:E1; [destruct (p >? 21) eqn:E2|
    destruct (d >=? p) eqn:E2; [|destruct (p <=? 21) eqn:E3]];
    injection H as <- <-; game_simpl;
    (split; [done|]); exists p1a, s;
    rewrite <- ?Hd, <- ?Hp, ?E1, ?E2, ?E3; cbn [fst snd];
    (split_and!; [done|done|done|done|lia|lia|done|done|done]).
Qed.

(** [do_pass] returns as soon as the dealer's draws do and the dealer's
    hand can be printed. *)
Lemma do_pass_returns g p1a cda s :
  _BlackJackGame.dealer_draws (length (CardDeck.deck (_BlackJackGame.cd g)))
    (_BlackJackGame.p1 g) (_BlackJackGame.cd g) = Ok (p1a, cda) →
  Player.print_friendly_hand p1a = Ok s →
  ∃ g', _BlackJackGame.do_pass g = Ok (false, g').
Proof.
  intros Hdraws Hprint. unfold _BlackJackGame.do_pass. game_simpl.
  rewrite Hdraws. game_simpl. unfold _BlackJackGame.print_hand.
  rewrite Hprint. game_simpl. eauto.
Qed.

Lemma passes_do_pass c g :
  passes c = true → _BlackJackGame.onecmd c g = _BlackJackGame.do_pass g.
Proof. by destruct c. Qed.

(** X12.  Whenever [pass] or [stand] returns, the dealer holds 18 or more:
    the dealer's hand is the hand from before followed by cards taken one
    by one off the end of the draw pile, no total before the last card was
    18 or more, the player's hand and the discard pile are as they were,
    and the round is over. *)
Theorem pass_stands_on_18 (c : _BlackJackGame.command) (g g' : _BlackJackGame.t)
    (b : _BlackJackGame.stop) :
  passes c = true →
  _BlackJackGame.onecmd c g = Ok (b, g') →
  b = false
  ∧ 18 ≤ Player.total_hand (_BlackJackGame.p1 g')
  ∧ _BlackJackGame.playing g' = false
  ∧ Player.hand (_BlackJackGame.p2 g') = Player.hand (_BlackJackGame.p2 g)
  ∧ CardDeck.discard (_BlackJackGame.cd g') = CardDeck.discard (_BlackJackGame.cd g)
  ∧ ∃ drawn,
      Player.hand (_BlackJackGame.p1 g') = Player.hand (_BlackJackGame.p1 g) ++ drawn
      ∧ CardDeck.deck (_BlackJackGame.cd g)
        = CardDeck.deck (_BlackJackGame.cd g') ++ reverse drawn
      ∧ ∀ k, (k < length drawn)%nat →
          hand_total (Player.hand (_BlackJackGame.p1 g) ++ take k drawn) < 18.
Proof.
  intros Hc. rewrite (passes_do_pass _ _ Hc).
  intros (-> & p1a & s & Hdraws & _ & Hh1 & Hh2 & _ & _ & Hplay & _)%do_pass_inv.
  apply dealer_draws_inv in Hdraws as (drawn & Hd & Hh & Hdis & _ & Hhigh & Hlow).
  rewrite total_hand_hand_total, Hh1.
  split_and!; [done..|]. by exists drawn.
Qed.

Lemma pass_stands_on_18_witness :
  ∃ g', _BlackJackGame.onecmd _BlackJackGame.stand round0 = Ok (false, g')
        ∧ 18 ≤ Player.total_hand (_BlackJackGame.p1 g').
Proof.
  destruct (_BlackJackGame.onecmd _BlackJackGame.stand round0) as [[b g']| |] eqn:E;
    [|by vm_compute in E..].
  destruct (pass_stands_on_18 _BlackJackGame.stand round0 g' b eq_refl E)
    as (-> & H18 & _).
  by exists g'.
Defined.

(** X13.  A player who is over 21 gets no point from [pass] or [stand]:
    the player's score stays, and the dealer's score goes up by one unless
    the dealer is over 21 too. *)
Theorem bust_player_never_scores (c : _BlackJackGame.command)
    (g g' : _BlackJackGame.t) (b : _BlackJackGame.stop) :
  passes c = true →
  21 < Player.total_hand (_BlackJackGame.p2 g) →
  _BlackJackGame.onecmd c g = Ok (b, g') →
  Player.score (_BlackJackGame.p2 g') = Player.score (_BlackJackGame.p2 g)
  ∧ (Player.total_hand (_BlackJackGame.p1 g') ≤ 21 →
     Player.score (_BlackJackGame.p1 g') = Player.score (_BlackJackGame.p1 g) + 1)
  ∧ (21 < Player.total_hand (_BlackJackGame.p1 g') →
     Player.score (_BlackJackGame.p1 g') = Player.score (_BlackJackGame.p1 g)).
Proof.
  intros Hc Hbust. rewrite (passes_do_pass _ _ Hc).
  intros (_ & p1a & s & _ & _ & Hh1 & _ & Hs1 & Hs2 & _)%do_pass_inv.
  rewrite !total_hand_hand_total in *. rewrite Hh1, Hs1, Hs2. unfold points.
  remember (hand_total (Player.hand p1a)) as d eqn:Hd.
  remember (hand_total (Player.hand (_BlackJackGame.p2 g))) as p eqn:Hp.
  destruct (d >? 21) eqn:E1; [destruct (p >? 21) eqn:E2|
    destruct (d >=? p) eqn:E2; [|destruct (p <=? 21) eqn:E3]];
    compare_totals; cbn [fst snd]; split_and!; intros; lia.
Qed.

Lemma bust_player_never_scores_witness :
  ∃ g', _BlackJackGame.onecmd _BlackJackGame.pass bust_round = Ok (false, g')
        ∧ Player.score (_BlackJackGame.p2 g') = 0.
Proof.
  destruct (_BlackJackGame.onecmd _BlackJackGame.pass bust_round) as [[b g']| |] eqn:E;
    [|by vm_compute in E..].
  assert (b = false) as -> by (vm_compute in E; congruence).
  destruct (bust_player_never_scores _BlackJackGame.pass bust_round g' false eq_refl)
    as (H & _); [by vm_compute|exact E|].
  by exists g'.
Defined.

(** X14.  [pass] is not held back by a round that is over: after a [pass]
    that returned, another [pass] returns too, draws no card, and gives the
    same points once more. *)
Theorem pass_again_scores_again (g g' : _BlackJackGame.t) (b : _BlackJackGame.stop) :
  _BlackJackGame.do_pass g = Ok (b, g') →
  ∃ g'',
    _BlackJackGame.do_pass g' = Ok (false, g'')
    ∧ Player.hand (_BlackJackGame.p1 g'') = Player.hand (_BlackJackGame.p1 g')
    ∧ Player.hand (_BlackJackGame.p2 g'') = Player.hand (_BlackJackGame.p2 g')
    ∧ _BlackJackGame.cd g'' = _BlackJackGame.cd g'
    ∧ Player.score (_BlackJackGame.p1 g'') - Player.score (_BlackJackGame.p1 g')
      = Player.score (_BlackJackGame.p1 g') - Player.score (_BlackJackGame.p1 g)
    ∧ Player.score (_BlackJackGame.p2 g'') - Player.score (_BlackJackGame.p2 g')
      = Player.score (_BlackJackGame.p2 g') - Player.score (_BlackJackGame.p2 g).
Proof.
  intros (_ & p1a & s & Hdraws & Hprint & Hh1 & Hh2 & Hs1 & Hs2 & _)%do_pass_inv.
  apply dealer_draws_inv in Hdraws as (drawn & _ & _ & _ & _ & Hhigh & _).
  assert (18 ≤ Player.total_hand (_BlackJackGame.p1 g')) as H18
    by (by rewrite total_hand_hand_total, Hh1).
  destruct (do_pass_returns g' (_BlackJackGame.p1 g') (_BlackJackGame.cd g') s)
    as [g'' Hagain].
  { by apply dealer_draws_stands. }
  { by rewrite (print_friendly_hand_hand _ p1a). }
  exists g''. split; [done|].
  apply do_pass_inv in Hagain
    as (_ & p1b & s' & Hdraws' & _ & Hh1' & Hh2' & Hs1' & Hs2' & _).
  rewrite dealer_draws_stands in Hdraws' by done. injection Hdraws' as <- Hcd.
  rewrite Hh1', Hh2', Hs1', Hs2', Hs1, Hs2, Hh1, Hh2.
  split_and!; [done|done|done|lia|lia].
Qed.

Lemma pass_again_scores_again_witness :
  ∃ g' g'',
    _BlackJackGame.do_pass round0 = Ok (false, g')
    ∧ _BlackJackGame.do_pass g' = Ok (false, g'')
    ∧ Player.score (_BlackJackGame.p1 g'') - Player.score (_BlackJackGame.p1 g')
      = Player.score (_BlackJackGame.p1 g') - Player.score (_BlackJackGame.p1 round0).
Proof.
  destruct (_BlackJackGame.do_pass round0) as [[b g']| |] eqn:E;
    [|by vm_compute in E..].
  destruct (pass_again_scores_again round0 g' b E) as (g'' & H & _ & _ & _ & Hs & _).
  assert (b = false) as -> by (vm_compute in E; congruence).
  by exists g', g''.
Defined.

(** ** Dealing a round *)

(** [start_game] on a draw pile of four cards or more: the top card goes to
    the dealer, the next to the player, the third to the dealer and the
    fourth to the player. *)
Lemma start_game_deals g rest c1 c2 c3 c4 :
  CardDeck.deck (_BlackJackGame.cd g) = rest ++ [c4; c3; c2; c1] →
  Forall valid_rank (Player.hand (_BlackJackGame.p1 g) ++ [c1; c3]) →
  Forall valid_rank (Player.hand (_BlackJackGame.p2 g) ++ [c2; c4]) →
  ∃ g' s1 s2,
    _BlackJackGame.start_game g = Ok g'
    ∧ Player.hand (_BlackJackGame.p1 g') = Player.hand (_BlackJackGame.p1 g) ++ [c1; c3]
    ∧ Player.hand (_BlackJackGame.p2 g') = Player.hand (_BlackJackGame.p2 g) ++ [c2; c4]
    ∧ Player.score (_BlackJackGame.p1 g') = Player.score (_BlackJackGame.p1 g)
    ∧ Player.score (_BlackJackGame.p2 g') = Player.score (_BlackJackGame.p2 g)
    ∧ _BlackJackGame.cd g' = CardDeck.mk rest (CardDeck.discard (_BlackJackGame.cd g))
    ∧ _BlackJackGame.random g' = _BlackJackGame.random g
    ∧ _BlackJackGame.playing g' = true
    ∧ _BlackJackGame.quitting g' = false
    ∧ Player.print_friendly_hand (_BlackJackGame.p1 g') = Ok s1
    ∧ Player.print_friendly_hand (_BlackJackGame.p2 g') = Ok s2
    ∧ _BlackJackGame.stdout g' =
        _BlackJackGame.stdout g ++
        ["Dealer's hand"; s1;
         "Total Val: " +:+ pretty (Player.total_hand (_BlackJackGame.p1 g'));
         "Player's hand"; s2;
         "Total Val: " +:+ pretty (Player.total_hand (_BlackJackGame.p2 g'))]%string.
Proof.
  destruct g as [[deck discard] p1 p2 playing quitting r out]. game_simpl.
  intros -> Hv1 Hv2. unfold _BlackJackGame.start_game. game_simpl.
  rewrite (hit_draw p1 _ r (rest ++ [c4; c3; c2]) c1)
    by (cbn; by rewrite <- (assoc_L (++))).
  game_simpl.
  rewrite (hit_draw p2 _ r (rest ++ [c4; c3]) c2)
    by (cbn; by rewrite <- (assoc_L (++))).
  game_simpl.
  rewrite (hit_draw _ _ r (rest ++ [c4]) c3)
    by (cbn; by rewrite <- (assoc_L (++))).
  game_simpl.
  rewrite (hit_draw _ _ r rest c4) by done.
  game_simpl.
  destruct (print_friendly_hand_valid
              (Player.mk (Player.hand p1 ++ [c1; c3]) (Player.score p1)) Hv1) as [s1 Hs1].
  destruct (print_friendly_hand_valid
              (Player.mk (Player.hand p2 ++ [c2; c4]) (Player.score p2)) Hv2) as [s2 Hs2].
  assert (Player.print_friendly_hand
            (Player.append_hand (Player.append_hand p1 c1) c3) = Ok s1) as Hs1'.
  { rewrite <- Hs1. apply print_friendly_hand_hand. cbn.
    by rewrite <- (assoc_L (++)). }
  assert (Player.print_friendly_hand
            (Player.append_hand (Player.append_hand p2 c2) c4) = Ok s2) as Hs2'.
  { rewrite <- Hs2. apply print_friendly_hand_hand. cbn.
    by rewrite <- (assoc_L (++)). }
  unfold _BlackJackGame.print_hand. game_simpl. rewrite Hs1'. game_simpl.
  rewrite Hs2'. game_simpl.
  eexists _, s1, s2. split; [reflexivity|]. game_simpl.
  rewrite <- !(assoc_L (++)). split_and!; done.
Qed.

Lemma last_four {A} (l : list A) :
  (4 ≤ length l)%nat → ∃ rest c4 c3 c2 c1, l = rest ++ [c4; c3; c2; c1].
Proof.
  intros Hlen.
  destruct (pop_is_Some l) as (c1 & l1 & -> & _); [destruct l; [cbn in Hlen; lia|done]|].
  rewrite length_app in Hlen. cbn in Hlen.
  destruct (pop_is_Some l1) as (c2 & l2 & -> & _); [destruct l1; [cbn in Hlen; lia|done]|].
  rewrite length_app in Hlen. cbn in Hlen.
  destruct (pop_is_Some l2) as (c3 & l3 & -> & _); [destruct l2; [cbn in Hlen; lia|done]|].
  rewrite length_app in Hlen. cbn in Hlen.
  destruct (pop_is_Some l3) as (c4 & l4 & -> & _); [destruct l3; [cbn in Hlen; lia|done]|].
  exists l4, c4, c3, c2, c1. by rewrite <- !(assoc_L (++)).
Qed.

(** X15.  [start_game] on a draw pile of at least four cards deals them in
    turn, dealer first: the dealer gets the top card and the third, the
    player the second and the fourth, each at the end of the hand; the
    scores stay, the round is on, no request to leave is pending, and six
    lines are printed. *)
Theorem start_game_deals_in_turn (g : _BlackJackGame.t) (rest : list Card.t)
    (c1 c2 c3 c4 : Card.t) :
  CardDeck.deck (_BlackJackGame.cd g) = rest ++ [c4; c3; c2; c1] →
  Forall valid_rank (Player.hand (_BlackJackGame.p1 g) ++ [c1; c3]) →
  Forall valid_rank (Player.hand (_BlackJackGame.p2 g) ++ [c2; c4]) →
  ∃ g',
    _BlackJackGame.start_game g = Ok g'
    ∧ Player.hand (_BlackJackGame.p1 g') = Player.hand (_BlackJackGame.p1 g) ++ [c1; c3]
    ∧ Player.hand (_BlackJackGame.p2 g') = Player.hand (_BlackJackGame.p2 g) ++ [c2; c4]
    ∧ Player.score (_BlackJackGame.p1 g') = Player.score (_BlackJackGame.p1 g)
    ∧ Player.score (_BlackJackGame.p2 g') = Player.score (_BlackJackGame.p2 g)
    ∧ _BlackJackGame.cd g' = CardDeck.mk rest (CardDeck.discard (_BlackJackGame.cd g))
    ∧ _BlackJackGame.playing g' = true
    ∧ _BlackJackGame.quitting g' = false
    ∧ length (_BlackJackGame.stdout g') = (length (_BlackJackGame.stdout g) + 6)%nat.
Proof.
  intros Hd Hv1 Hv2.
  destruct (start_game_deals g rest c1 c2 c3 c4 Hd Hv1 Hv2)
    as (g' & s1 & s2 & H & Hh1 & Hh2 & Hs1 & Hs2 & Hcd & _ & Hp & Hq & _ & _ & Hout).
  exists g'. split_and!; try done. rewrite Hout, length_app. done.
Qed.

Lemma start_game_deals_in_turn_witness :
  ∃ g',
    _BlackJackGame.start_game
      (_BlackJackGame.mk (CardDeck.create_unshuffled_deck CardDeck.__init__)
         Player.__init__ Player.__init__ false false tape0 []) = Ok g'
    ∧ Player.hand (_BlackJackGame.p1 g')
      = [Card.__init__ "Clubs" 13; Card.__init__ "Clubs" 11]
    ∧ Player.hand (_BlackJackGame.p2 g')
      = [Card.__init__ "Clubs" 12; Card.__init__ "Clubs" 10].
Proof.
  destruct (start_game_deals_in_turn
              (_BlackJackGame.mk (CardDeck.create_unshuffled_deck CardDeck.__init__)
                 Player.__init__ Player.__init__ false false tape0 [])
              (take 48 standard_deck)
              (Card.__init__ "Clubs" 13) (Card.__init__ "Clubs" 12)
              (Card.__init__ "Clubs" 11) (Card.__init__ "Clubs" 10))
    as (g' & H & Hh1 & Hh2 & _).
  - reflexivity.
  - repeat constructor; by vm_compute.
  - repeat constructor; by vm_compute.
  - by exists g'.
Defined.

(** X16.  A new game always starts, whatever the shuffle: [__init__]
    returns a game with two cards in each hand, none of them over 21 in
    total, the other 48 cards in the draw pile, an empty discard pile, both
    scores at zero, the round on and six lines printed. *)
Theorem new_game_starts (r : Random.t) :
  ∃ g,
    _BlackJackGame.__init__ r = Ok g
    ∧ length (Player.hand (_BlackJackGame.p1 g)) = 2%nat
    ∧ length (Player.hand (_BlackJackGame.p2 g)) = 2%nat
    ∧ length (CardDeck.deck (_BlackJackGame.cd g)) = 48%nat
    ∧ CardDeck.discard (_BlackJackGame.cd g) = []
    ∧ Player.score (_BlackJackGame.p1 g) = 0
    ∧ Player.score (_BlackJackGame.p2 g) = 0
    ∧ Player.total_hand (_BlackJackGame.p1 g) ≤ 20
    ∧ Player.total_hand (_BlackJackGame.p2 g) ≤ 20
    ∧ _BlackJackGame.playing g = true
    ∧ _BlackJackGame.quitting g = false
    ∧ length (_BlackJackGame.stdout g) = 6%nat.
Proof.
  unfold _BlackJackGame.__init__.
  rewrite create_unshuffled_deck_app, shuffle_deck_spec.
  cbn [CardDeck.deck CardDeck.discard CardDeck.__init__ app].
  pose proof (shuffle_Permutation standard_deck r) as Hperm.
  destruct (Random.shuffle standard_deck r) as [pile r'].
  cbn [fst snd] in *.
  assert (length pile = 52%nat) as Hlen by (by rewrite Hperm).
  destruct (last_four pile) as (rest & c4 & c3 & c2 & c1 & ->); [lia|].
  assert (Forall built (rest ++ [c4; c3; c2; c1])) as Hbuilt.
  { rewrite Hperm. apply standard_deck_built. }
  rewrite !Forall_app, !list.Forall_cons in Hbuilt.
  destruct Hbuilt as (_ & B4 & B3 & B2 & B1 & _).
  destruct (start_game_deals
              (_BlackJackGame.mk (CardDeck.mk (rest ++ [c4; c3; c2; c1]) [])
                 Player.__init__ Player.__init__ false false r' [])
              rest c1 c2 c3 c4)
    as (g & s1 & s2 & H & Hh1 & Hh2 & Hs1 & Hs2 & Hcd & _ & Hp & Hq & _ & _ & Hout).
  - reflexivity.
  - apply List.Forall_cons; [apply B1|].
    apply List.Forall_cons; [apply B3|]. apply List.Forall_nil.
  - apply List.Forall_cons; [apply B2|].
    apply List.Forall_cons; [apply B4|]. apply List.Forall_nil.
  - exists g. split; [exact H|].
    cbn [_BlackJackGame.p1 _BlackJackGame.p2 _BlackJackGame.cd _BlackJackGame.stdout
         Player.__init__ Player.hand Player.score CardDeck.discard app] in *.
    rewrite !total_hand_hand_total, Hh1, Hh2, Hs1, Hs2, Hcd, Hout.
    cbn [CardDeck.deck CardDeck.discard length].
    assert (length rest = 48%nat) as Hrest.
    { rewrite length_app in Hlen. cbn [length] in Hlen. lia. }
    pose proof (built_hand_total [c1; c3]) as T1.
    pose proof (built_hand_total [c2; c4]) as T2.
    cbn [length] in T1, T2.
    split_and!; [reflexivity|reflexivity|exact Hrest|reflexivity|reflexivity|reflexivity
                | | |exact Hp|exact Hq|reflexivity].
    + apply T1. apply List.Forall_cons; [exact B1|].
      apply List.Forall_cons; [exact B3|]. apply List.Forall_nil.
    + apply T2. apply List.Forall_cons; [exact B2|].
      apply List.Forall_cons; [exact B4|]. apply List.Forall_nil.
Qed.

(** ** The other commands *)

Lemma start_game_hands g g' :
  _BlackJackGame.start_game g = Ok g' →
  ∃ c1 c2 c3 c4,
    Player.hand (_BlackJackGame.p1 g') = Player.hand (_BlackJackGame.p1 g) ++ [c1; c3]
    ∧ Player.hand (_BlackJackGame.p2 g') = Player.hand (_BlackJackGame.p2 g) ++ [c2; c4].
Proof.
  unfold _BlackJackGame.start_game. intros H.
  apply bind_Ok in H as ([[p1a cda] ra] & (c1 & -> & _)%hit_Ok & H).
  apply bind_Ok in H as ([[p2a cdb] rb] & (c2 & -> & _)%hit_Ok & H).
  apply bind_Ok in H as ([[p1b cdc] rc] & (c3 & -> & _)%hit_Ok & H).
  apply bind_Ok in H as ([[p2b cdd] rd] & (c4 & -> & _)%hit_Ok & H).
  apply bind_Ok in H as (ga & [sa ->]%print_hand_Ok & H).
  apply bind_Ok in H as (gb & [sb ->]%print_hand_Ok & H).
  injection H as <-. game_simpl. exists c1, c2, c3, c4.
  by rewrite <- !(assoc_L (++)).
Qed.

(** What [do_hit] has done when it returns. *)
Lemma do_hit_inv g b g' :
  _BlackJackGame.do_hit g = Ok (b, g') →
  b = false
  ∧ _BlackJackGame.quitting g' = false
  ∧ Player.hand (_BlackJackGame.p1 g') = Player.hand (_BlackJackGame.p1 g)
  ∧ Player.score (_BlackJackGame.p2 g') = Player.score (_BlackJackGame.p2 g)
  ∧ ((_BlackJackGame.playing g = false
      ∧ _BlackJackGame.playing g' = false
      ∧ Player.hand (_BlackJackGame.p2 g') = Player.hand (_BlackJackGame.p2 g)
      ∧ Player.score (_BlackJackGame.p1 g') = Player.score (_BlackJackGame.p1 g)
      ∧ _BlackJackGame.cd g' = _BlackJackGame.cd g)
     ∨ (_BlackJackGame.playing g = true
        ∧ ∃ c, Player.hand (_BlackJackGame.p2 g')
               = Player.hand (_BlackJackGame.p2 g) ++ [c]
        ∧ ((hand_total (Player.hand (_BlackJackGame.p2 g')) ≤ 21
            ∧ _BlackJackGame.playing g' = true
            ∧ Player.score (_BlackJackGame.p1 g') = Player.score (_BlackJackGame.p1 g))
           ∨ (21 < hand_total (Player.hand (_BlackJackGame.p2 g'))
              ∧ _BlackJackGame.playing g' = false
              ∧ Player.score (_BlackJackGame.p1 g')
                = Player.score (_BlackJackGame.p1 g) + 1)))).
Proof.
  unfold _BlackJackGame.do_hit. game_simpl.
  destruct (_BlackJackGame.playing g) eqn:Hplaying.
  - intros H. apply bind_Ok in H as ([[p2a cda] ra] & (c & -> & _)%hit_Ok & H).
    game_simpl. rewrite total_hand_hand_total in H. game_simpl.
    destruct (_ <=? 21) eqn:E; compare_totals;
      apply bind_Ok in H as (ga & [sa ->]%print_hand_Ok & H);
      injection H as <- <-; game_simpl;
      (split_and!; [done..|]); right; (split; [done|]); exists c;
      (split; [done|]); [left|right]; by split_and!.
  - intros [= <- <-]. game_simpl. split_and!; [done..|]. left. by split_and!.
Qed.

(** What [do_yes] has done when it returns. *)
Lemma do_yes_inv g b g' :
  _BlackJackGame.do_yes g = Ok (b, g') →
  b = false
  ∧ _BlackJackGame.quitting g' = false
  ∧ Player.score (_BlackJackGame.p1 g') = Player.score (_BlackJackGame.p1 g)
  ∧ Player.score (_BlackJackGame.p2 g') = Player.score (_BlackJackGame.p2 g)
  ∧ _BlackJackGame.playing g' = true
  ∧ ((_BlackJackGame.playing g = true
      ∧ Player.hand (_BlackJackGame.p1 g') = Player.hand (_BlackJackGame.p1 g)
      ∧ Player.hand (_BlackJackGame.p2 g') = Player.hand (_BlackJackGame.p2 g)
      ∧ _BlackJackGame.cd g' = _BlackJackGame.cd g)
     ∨ (_BlackJackGame.playing g = false
        ∧ ∃ c1 c2 c3 c4,
            Player.hand (_BlackJackGame.p1 g') = [c1; c3]
            ∧ Player.hand (_BlackJackGame.p2 g') = [c2; c4])).
Proof.
  unfold _BlackJackGame.do_yes. game_simpl.
  destruct (_BlackJackGame.playing g) eqn:Hplaying; cbn [negb].
  - intros [= <- <-]. game_simpl. split_and!; [done..|]. left. by split_and!.
  - intros H. cbn [Player.discard] in H. game_simpl.
    apply bind_Ok in H as (ga & Hstart & H). injection H as <- <-.
    pose proof (start_game_Ok _ _ Hstart) as (_ & Hs1 & Hs2 & Hp & Hq).
    apply start_game_hands in Hstart as (c1 & c2 & c3 & c4 & Hh1 & Hh2).
    game_simpl. split_and!; [done..|]. right. split; [done|].
    by exists c1, c2, c3, c4.
Qed.

(** X17.  Of the ten commands the class defines, only [no], [quit], [exit]
    and [EOF] return True, the value that ends the command loop, and they
    return it exactly when no round is on or a request to leave is pending;
    they touch neither the cards nor the scores.  Each of [hit], [pass],
    [stand], [yes], [newHand] and [another], when it returns, returns no
    such value and has withdrawn a pending request to leave. *)
Theorem only_leaving_stops (c : _BlackJackGame.command) (g g' : _BlackJackGame.t)
    (b : _BlackJackGame.stop) :
  _BlackJackGame.onecmd c g = Ok (b, g') →
  (b = true ↔ leaves c = true
              ∧ (_BlackJackGame.playing g = false ∨ _BlackJackGame.quitting g = true))
  ∧ (c = _BlackJackGame.hit ∨ c = _BlackJackGame.pass ∨ c = _BlackJackGame.stand
     ∨ c = _BlackJackGame.yes ∨ c = _BlackJackGame.newHand ∨ c = _BlackJackGame.another →
     b = false ∧ _BlackJackGame.quitting g' = false)
  ∧ (leaves c = true →
     _BlackJackGame.cd g' = _BlackJackGame.cd g
     ∧ _BlackJackGame.p1 g' = _BlackJackGame.p1 g
     ∧ _BlackJackGame.p2 g' = _BlackJackGame.p2 g
     ∧ _BlackJackGame.playing g' = _BlackJackGame.playing g
     ∧ _BlackJackGame.random g' = _BlackJackGame.random g).
Proof.
  assert (_BlackJackGame.do_no g = Ok (b, g') →
    (b = true ↔ (_BlackJackGame.playing g = false ∨ _BlackJackGame.quitting g = true))
    ∧ _BlackJackGame.cd g' = _BlackJackGame.cd g
    ∧ _BlackJackGame.p1 g' = _BlackJackGame.p1 g
    ∧ _BlackJackGame.p2 g' = _BlackJackGame.p2 g
    ∧ _BlackJackGame.playing g' = _BlackJackGame.playing g
    ∧ _BlackJackGame.random g' = _BlackJackGame.random g) as Hno.
  { unfold _BlackJackGame.do_no.
    destruct (_BlackJackGame.playing g) eqn:Hp, (_BlackJackGame.quitting g) eqn:Hq;
      cbn [negb]; intros [= <- <-]; game_simpl; split_and!; try done;
      split; auto; intros [?|?]; done. }
  destruct c; cbn [_BlackJackGame.onecmd leaves];
    unfold _BlackJackGame.do_stand, _BlackJackGame.do_newHand, _BlackJackGame.do_another,
      _BlackJackGame.do_EOF, _BlackJackGame.do_quit, _BlackJackGame.do_exit; intros H.
  1: apply do_hit_inv in H as (-> & Hq & _).
  2,3: apply do_pass_inv in H as (-> & p1a & s & _ & _ & _ & _ & _ & _ & _ & Hq & _).
  4,5,6: apply do_yes_inv in H as (-> & Hq & _).
  1-6: split_and!; [split; [done|by intros [? _]]|done|done].
  all: apply Hno in H as (Hb & Hrest); split_and!;
    [|intros Hc; repeat destruct Hc as [Hc|Hc]; discriminate Hc|done];
    rewrite Hb; split; [by split|by intros [_ ?]].
Qed.

Lemma only_leaving_stops_witness :
  ∃ g', _BlackJackGame.onecmd _BlackJackGame.stand round0 = Ok (false, g')
        ∧ _BlackJackGame.quitting g' = false.
Proof.
  destruct (_BlackJackGame.onecmd _BlackJackGame.stand round0) as [[b g']| |] eqn:E;
    [|by vm_compute in E..].
  destruct (only_leaving_stops _ _ _ _ E) as (_ & Hq & _).
  destruct Hq as [-> Hq]; [by right; right; left|].
  by exists g'.
Defined.

(** X18.  [hit] while a round is on gives the player the top card of the
    draw pile: with a total of 21 or less the round goes on and the scores
    stay; with more the dealer's score goes up by one and the round is
    over.  [hit] when no round is on prints a prompt and deals nothing. *)
Theorem hit_goes_on_or_busts (g over : _BlackJackGame.t) (rest : list Card.t)
    (c : Card.t) :
  _BlackJackGame.playing g = true →
  CardDeck.deck (_BlackJackGame.cd g) = rest ++ [c] →
  Forall valid_rank (Player.hand (_BlackJackGame.p2 g) ++ [c]) →
  _BlackJackGame.playing over = false →
  (∃ g',
     _BlackJackGame.do_hit g = Ok (false, g')
     ∧ Player.hand (_BlackJackGame.p2 g') = Player.hand (_BlackJackGame.p2 g) ++ [c]
     ∧ Player.hand (_BlackJackGame.p1 g') = Player.hand (_BlackJackGame.p1 g)
     ∧ _BlackJackGame.cd g' = CardDeck.mk rest (CardDeck.discard (_BlackJackGame.cd g))
     ∧ Player.score (_BlackJackGame.p2 g') = Player.score (_BlackJackGame.p2 g)
     ∧ _BlackJackGame.quitting g' = false
     ∧ (hand_total (Player.hand (_BlackJackGame.p2 g) ++ [c]) ≤ 21 →
        _BlackJackGame.playing g' = true
        ∧ Player.score (_BlackJackGame.p1 g') = Player.score (_BlackJackGame.p1 g))
     ∧ (21 < hand_total (Player.hand (_BlackJackGame.p2 g) ++ [c]) →
        _BlackJackGame.playing g' = false
        ∧ Player.score (_BlackJackGame.p1 g') = Player.score (_BlackJackGame.p1 g) + 1))
  ∧ _BlackJackGame.do_hit over
    = Ok (false, _BlackJackGame.print "Start another game, yes/no?"
                   (_BlackJackGame.set_quitting false over)).
Proof.
  intros Hplaying Hdeck Hvalid Hover. split.
  - destruct g as [[deck discard] p1 p2 playing quitting r out].
    game_simpl. subst deck playing.
    unfold _BlackJackGame.do_hit. game_simpl.
    rewrite (hit_draw p2 _ r rest c) by done. game_simpl.
    rewrite total_hand_hand_total. game_simpl.
    remember (hand_total (Player.hand p2 ++ [c])) as t eqn:Ht.
    destruct (t <=? 21) eqn:E; compare_totals;
      print_succeeds Hvalid;
      eexists; (split; [reflexivity|]); game_simpl;
      split_and!; try done; intros; lia.
  - unfold _BlackJackGame.do_hit. game_simpl. by rewrite Hover.
Qed.

Lemma hit_goes_on_or_busts_witness :
  ∃ g',
    _BlackJackGame.do_hit round0 = Ok (false, g')
    ∧ _BlackJackGame.playing g' = false
    ∧ Player.score (_BlackJackGame.p1 g') = 1.
Proof.
  destruct (hit_goes_on_or_busts round0 bust_round
              [Card.__init__ "Hearts" 2; Card.__init__ "Clubs" 13]
              (Card.__init__ "Spades" 6))
    as [(g' & H & _ & _ & _ & _ & _ & _ & Hbust) _].
  - reflexivity.
  - reflexivity.
  - repeat constructor; by vm_compute.
  - reflexivity.
  - exists g'. destruct Hbust as [Hp Hs]; [by vm_compute|]. by split_and!.
Defined.

(** Where the card of a [hit] that returned came from. *)
Lemma hit_inv p d r p' d' r' :
  Player.hit p d r = Ok (p', d', r') →
  ∃ c, p' = Player.append_hand p c
       ∧ ((CardDeck.deck d = CardDeck.deck d' ++ [c]
           ∧ CardDeck.discard d' = CardDeck.discard d)
          ∨ (CardDeck.deck d = []
             ∧ CardDeck.discard d' = []
             ∧ CardDeck.deck d' ++ [c] ≡ₚ CardDeck.discard d)).
Proof.
  intros H. destruct (decide (CardDeck.deck d = [])) as [Hd|Hd].
  - destruct (decide (CardDeck.discard d = [])) as [Hdis|Hdis].
    { by rewrite hit_nothing_left in H. }
    destruct (hit_recycle p d r Hd Hdis) as (rest & c & Hs & Hh).
    rewrite Hh in H. injection H as <- <- <-. exists c. split; [done|].
    right. cbn. split_and!; [done|done|].
    rewrite <- Hs. apply shuffle_Permutation.
  - destruct (pop_is_Some _ Hd) as (c & rest & E & _).
    rewrite (hit_draw _ _ _ _ _ E) in H. injection H as <- <- <-.
    exists c. split; [done|]. by left.
Qed.

Lemma dealt_nil d : dealt d [] d.
Proof. left. cbn. by rewrite app_nil_r. Qed.

Lemma dealt_hit d cs d1 p r p' d2 r' :
  dealt d cs d1 →
  Player.hit p d1 r = Ok (p', d2, r') →
  ∃ c, p' = Player.append_hand p c ∧ dealt d (cs ++ [c]) d2.
Proof.
  intros Hdealt (c & -> & Hcase)%hit_inv. exists c. split; [done|].
  destruct Hdealt as [[Hd Hdis]|(n & Hn & Hd & Hdis & Hperm)];
    destruct Hcase as [[Hd1 Hdis1]|(Hd1 & Hdis1 & Hperm1)].
  - left. rewrite Hd, Hd1, reverse_app, Hdis1. cbn.
    by rewrite <- (assoc_L (++)).
  - right. exists (length cs). rewrite length_app, take_app_length, drop_app_length.
    rewrite Hd, Hd1, <- Hdis. cbn. split_and!; [lia|done|done|done].
  - right. exists n. rewrite length_app, take_app_le, drop_app_le by lia.
    rewrite reverse_app, <- Hperm, Hd1, Hdis1. cbn.
    split_and!; [lia|done|done|]. by rewrite <- (assoc_L (++)).
  - rewrite Hdis in Hperm1. apply Permutation_nil_inv in Hperm1.
    by destruct (CardDeck.deck d2).
Qed.

(** The four cards of [start_game], and where they came from. *)
Lemma start_game_dealt g g' :
  _BlackJackGame.start_game g = Ok g' →
  ∃ c1 c2 c3 c4,
    Player.hand (_BlackJackGame.p1 g') = Player.hand (_BlackJackGame.p1 g) ++ [c1; c3]
    ∧ Player.hand (_BlackJackGame.p2 g') = Player.hand (_BlackJackGame.p2 g) ++ [c2; c4]
    ∧ dealt (_BlackJackGame.cd g) [c1; c2; c3; c4] (_BlackJackGame.cd g').
Proof.
  unfold _BlackJackGame.start_game. intros H.
  apply bind_Ok in H as ([[p1a cda] ra] & H1 & H).
  apply bind_Ok in H as ([[p2a cdb] rb] & H2 & H).
  apply bind_Ok in H as ([[p1b cdc] rc] & H3 & H).
  apply bind_Ok in H as ([[p2b cdd] rd] & H4 & H).
  apply bind_Ok in H as (ga & [sa ->]%print_hand_Ok & H).
  apply bind_Ok in H as (gb & [sb ->]%print_hand_Ok & H).
  injection H as <-. game_simpl.
  destruct (dealt_hit _ _ _ _ _ _ _ _ (dealt_nil _) H1) as (c1 & -> & D1).
  destruct (dealt_hit _ _ _ _ _ _ _ _ D1 H2) as (c2 & -> & D2).
  destruct (dealt_hit _ _ _ _ _ _ _ _ D2 H3) as (c3 & -> & D3).
  destruct (dealt_hit _ _ _ _ _ _ _ _ D3 H4) as (c4 & -> & D4).
  exists c1, c2, c3, c4. game_simpl.
  rewrite <- !(assoc_L (++)). by split_and!.
Qed.

(** The deal of [do_yes] when no round is on: the hands have gone to the
    end of the discard pile, the dealer's first, before the four cards
    are dealt. *)
Lemma do_yes_dealt g b g' :
  _BlackJackGame.do_yes g = Ok (b, g') →
  _BlackJackGame.playing g = false →
  ∃ c1 c2 c3 c4,
    Player.hand (_BlackJackGame.p1 g') = [c1; c3]
    ∧ Player.hand (_BlackJackGame.p2 g') = [c2; c4]
    ∧ dealt (CardDeck.mk (CardDeck.deck (_BlackJackGame.cd g))
               (CardDeck.discard (_BlackJackGame.cd g)
                ++ Player.hand (_BlackJackGame.p1 g)
                ++ Player.hand (_BlackJackGame.p2 g)))
            [c1; c2; c3; c4] (_BlackJackGame.cd g').
Proof.
  unfold _BlackJackGame.do_yes. game_simpl. intros H Hp. rewrite Hp in H.
  cbn [negb Player.discard] in H. game_simpl.
  apply bind_Ok in H as (ga & Hstart & H). injection H as <- <-.
  apply start_game_dealt in Hstart as (c1 & c2 & c3 & c4 & Hh1 & Hh2 & Hd).
  game_simpl. rewrite <- (assoc_L (++)) in Hd. by exists c1, c2, c3, c4.
Qed.

(** X19.  [yes], [newHand] and [another] when no round is on put both
    hands at the end of the discard pile, the dealer's first, and deal
    again from the deck so made: each hand then holds exactly two cards,
    dealt in turn from the end of the draw pile, or, when the draw pile
    runs out on the way, from the discard pile (old hands included)
    shuffled into a new draw pile; the scores are what they were and a
    round is on.  While a round is on they deal nothing and leave the
    hands and the deck alone. *)
Theorem yes_deals_a_new_round (c : _BlackJackGame.command)
    (g g' : _BlackJackGame.t) (b : _BlackJackGame.stop) :
  c = _BlackJackGame.yes ∨ c = _BlackJackGame.newHand ∨ c = _BlackJackGame.another →
  _BlackJackGame.onecmd c g = Ok (b, g') →
  b = false
  ∧ Player.score (_BlackJackGame.p1 g') = Player.score (_BlackJackGame.p1 g)
  ∧ Player.score (_BlackJackGame.p2 g') = Player.score (_BlackJackGame.p2 g)
  ∧ _BlackJackGame.playing g' = true
  ∧ _BlackJackGame.quitting g' = false
  ∧ cards g' ≡ₚ cards g
  ∧ (_BlackJackGame.playing g = false →
     length (Player.hand (_BlackJackGame.p1 g')) = 2%nat
     ∧ length (Player.hand (_BlackJackGame.p2 g')) = 2%nat
     ∧ ∃ c1 c2 c3 c4,
         Player.hand (_BlackJackGame.p1 g') = [c1; c3]
         ∧ Player.hand (_BlackJackGame.p2 g') = [c2; c4]
         ∧ dealt (CardDeck.mk (CardDeck.deck (_BlackJackGame.cd g))
                    (CardDeck.discard (_BlackJackGame.cd g)
                     ++ Player.hand (_BlackJackGame.p1 g)
                     ++ Player.hand (_BlackJackGame.p2 g)))
                 [c1; c2; c3; c4] (_BlackJackGame.cd g'))
  ∧ (_BlackJackGame.playing g = true →
     Player.hand (_BlackJackGame.p1 g') = Player.hand (_BlackJackGame.p1 g)
     ∧ Player.hand (_BlackJackGame.p2 g') = Player.hand (_BlackJackGame.p2 g)
     ∧ _BlackJackGame.cd g' = _BlackJackGame.cd g).
Proof.
  intros Hc H.
  assert (_BlackJackGame.do_yes g = Ok (b, g')) as Hyes
    by (by destruct Hc as [->|[->| ->]]).
  clear H Hc. pose proof (do_yes_Ok _ _ _ Hyes) as (_ & Hcards & _).
  pose proof (do_yes_dealt _ _ _ Hyes) as Hdealt.
  apply do_yes_inv in Hyes as (-> & Hq & Hs1 & Hs2 & Hp & Hcase).
  split_and!; try done.
  - intros Hover. destruct (Hdealt Hover) as (c1 & c2 & c3 & c4 & Hh1 & Hh2 & Hd).
    rewrite Hh1, Hh2. split_and!; [done|done|]. by exists c1, c2, c3, c4.
  - intros Hon. destruct Hcase as [(_ & ? & ? & ?)|[? _]]; [done|congruence].
Qed.

Lemma yes_deals_a_new_round_witness :
  ∃ g',
    _BlackJackGame.onecmd _BlackJackGame.another bust_round = Ok (false, g')
    ∧ length (Player.hand (_BlackJackGame.p1 g')) = 2%nat
    ∧ length (Player.hand (_BlackJackGame.p2 g')) = 2%nat
    ∧ Player.score (_BlackJackGame.p1 g') = 1
    ∧ CardDeck.discard (_BlackJackGame.cd g') = []
    ∧ length (CardDeck.deck (_BlackJackGame.cd g')) = 4%nat.
Proof.
  destruct (_BlackJackGame.onecmd _BlackJackGame.another bust_round)
    as [[b g']| |] eqn:E; [|by vm_compute in E..].
  destruct (yes_deals_a_new_round _BlackJackGame.another bust_round g' b)
    as (-> & Hs1 & _ & _ & _ & _ & Hdeal & _); [by right; right|exact E|].
  destruct Hdeal as (H1 & H2 & c1 & c2 & c3 & c4 & _ & _ & Hdealt); [reflexivity|].
  exists g'. split_and!; [done|done|done|done| |].
  - destruct Hdealt as [[Hd _]|(n & _ & _ & Hdis & _)]; [|done].
    apply (f_equal length) in Hd. rewrite length_app in Hd. cbn in Hd. lia.
  - destruct Hdealt as [[Hd _]|(n & Hn & Hd & _ & Hperm)].
    + apply (f_equal length) in Hd. rewrite length_app in Hd. cbn in Hd. lia.
    + apply (f_equal length) in Hd. apply Permutation_length in Hperm.
      rewrite length_reverse, length_take in Hd.
      rewrite length_app, length_reverse, length_drop in Hperm.
      cbn in Hd, Hperm, Hn. lia.
Defined.

(** ** A game played by commands *)

Lemma hit_succeeds p d r :
  (0 < length (CardDeck.deck d) + length (CardDeck.discard d))%nat →
  ∃ c d' r',
    Player.hit p d r = Ok (Player.append_hand p c, d', r')
    ∧ c :: CardDeck.deck d' ++ CardDeck.discard d'
        ≡ₚ CardDeck.deck d ++ CardDeck.discard d.
Proof.
  intros Hlen.
  assert (∃ p' d' r', Player.hit p d r = Ok (p', d', r')) as (p' & d' & r' & H).
  { destruct (decide (CardDeck.deck d = [])) as [Hd|Hd].
    - destruct (hit_recycle p d r Hd) as (rest & c & _ & ->); [|eauto].
      intros Hdis. rewrite Hd, Hdis in Hlen. cbn in Hlen. lia.
    - destruct (pop_is_Some _ Hd) as (c & rest & E & _).
      rewrite (hit_draw _ _ _ _ _ E). eauto. }
  destruct (hit_Ok _ _ _ _ _ _ H) as (c & -> & Hperm). eauto.
Qed.

Lemma pool_length d c d' :
  c :: CardDeck.deck d' ++ CardDeck.discard d'
    ≡ₚ CardDeck.deck d ++ CardDeck.discard d →
  (length (CardDeck.deck d') + length (CardDeck.discard d') + 1
   = length (CardDeck.deck d) + length (CardDeck.discard d))%nat.
Proof.
  intros H%Permutation_length. rewrite <- !length_app, <- H. cbn. lia.
Qed.

(** [start_game] returns whenever the two piles hold four cards between
    them and every card can be printed. *)
Lemma start_game_returns g :
  Forall valid_rank (cards g) →
  (4 ≤ length (CardDeck.deck (_BlackJackGame.cd g))
       + length (CardDeck.discard (_BlackJackGame.cd g)))%nat →
  ∃ g', _BlackJackGame.start_game g = Ok g'.
Proof.
  destruct g as [d p1 p2 playing quitting r out]. unfold cards. game_simpl.
  rewrite !Forall_app. intros (V1 & V2 & V3 & V4) Hlen.
  assert (Forall valid_rank (CardDeck.deck d ++ CardDeck.discard d)) as Vpool
    by (by apply Forall_app).
  unfold _BlackJackGame.start_game. game_simpl.
  destruct (hit_succeeds p1 d r) as (c1 & d1 & r1 & -> & P1); [lia|].
  pose proof (pool_length _ _ _ P1) as L1. rewrite <- P1 in Vpool.
  apply list.Forall_cons in Vpool as [Vc1 Vpool]. game_simpl.
  destruct (hit_succeeds p2 d1 r1) as (c2 & d2 & r2 & -> & P2); [lia|].
  pose proof (pool_length _ _ _ P2) as L2. rewrite <- P2 in Vpool.
  apply list.Forall_cons in Vpool as [Vc2 Vpool]. game_simpl.
  destruct (hit_succeeds (Player.append_hand p1 c1) d2 r2)
    as (c3 & d3 & r3 & -> & P3); [lia|].
  pose proof (pool_length _ _ _ P3) as L3. rewrite <- P3 in Vpool.
  apply list.Forall_cons in Vpool as [Vc3 Vpool]. game_simpl.
  destruct (hit_succeeds (Player.append_hand p2 c2) d3 r3)
    as (c4 & d4 & r4 & -> & P4); [lia|].
  rewrite <- P4 in Vpool. apply list.Forall_cons in Vpool as [Vc4 Vpool]. game_simpl.
  assert (Forall valid_rank ((Player.hand p1 ++ [c1]) ++ [c3])) as Hv1.
  { rewrite !Forall_app. split_and!; [done|by apply Forall_singleton..]. }
  assert (Forall valid_rank ((Player.hand p2 ++ [c2]) ++ [c4])) as Hv2.
  { rewrite !Forall_app. split_and!; [done|by apply Forall_singleton..]. }
  print_succeeds Hv1. print_succeeds Hv2. eauto.
Qed.

Lemma built_valid h : Forall built h → Forall valid_rank h.
Proof. intros H. eapply List.Forall_impl; [|exact H]. by intros c [? _]. Qed.

Lemma table_ok_built g : table_ok g → Forall built (cards g).
Proof. intros [Hperm _]. rewrite Hperm. apply standard_deck_built. Qed.

Lemma table_ok_piles g :
  table_ok g →
  (length (Player.hand (_BlackJackGame.p1 g)) + length (Player.hand (_BlackJackGame.p2 g))
   + length (CardDeck.deck (_BlackJackGame.cd g))
   + length (CardDeck.discard (_BlackJackGame.cd g)) = 52)%nat.
Proof.
  intros [Hperm%Permutation_length _]. revert Hperm.
  unfold cards. rewrite !length_app. change (length standard_deck) with 52%nat. lia.
Qed.

Lemma do_no_inv g b g' :
  _BlackJackGame.do_no g = Ok (b, g') →
  _BlackJackGame.cd g' = _BlackJackGame.cd g
  ∧ _BlackJackGame.p1 g' = _BlackJackGame.p1 g
  ∧ _BlackJackGame.p2 g' = _BlackJackGame.p2 g
  ∧ _BlackJackGame.playing g' = _BlackJackGame.playing g.
Proof.
  unfold _BlackJackGame.do_no.
  destruct (_BlackJackGame.playing g) eqn:Hp, (_BlackJackGame.quitting g) eqn:Hq;
    cbn [negb]; intros [= <- <-]; game_simpl; by rewrite ?Hp.
Qed.

Lemma init_start r :
  ∃ cd r',
    _BlackJackGame.__init__ r
    = _BlackJackGame.start_game
        (_BlackJackGame.mk cd Player.__init__ Player.__init__ false false r' []).
Proof.
  unfold _BlackJackGame.__init__.
  destruct (CardDeck.shuffle_deck _ r) as [cd r']. by exists cd, r'.
Qed.

Lemma init_table_ok r g : _BlackJackGame.__init__ r = Ok g → table_ok g.
Proof.
  intros H. pose proof (init_cards _ _ H) as Hperm.
  assert (Forall built (cards g)) as Hbuilt.
  { rewrite Hperm. apply standard_deck_built. }
  destruct (init_start r) as (cd0 & r' & E). rewrite E in H. clear E.
  pose proof (start_game_Ok _ _ H) as (_ & _ & _ & Hp & _).
  apply start_game_hands in H as (c1 & c2 & c3 & c4 & Hh1 & Hh2).
  cbn [_BlackJackGame.p1 _BlackJackGame.p2 Player.__init__ Player.hand app] in Hh1, Hh2.
  unfold cards in Hbuilt. rewrite !Forall_app in Hbuilt.
  destruct Hbuilt as (_ & B2%built_hand_total & _).
  rewrite Hh2 in B2. cbn [length] in B2.
  unfold table_ok. rewrite Hh1, Hh2. cbn [length].
  split_and!; [exact Hperm|lia|lia|]. intros _. lia.
Qed.

Lemma onecmd_table_ok c g b g' :
  table_ok g → _BlackJackGame.onecmd c g = Ok (b, g') → table_ok g'.
Proof.
  intros Hok H. pose proof (onecmd_Ok _ _ _ _ H) as [Hcards _].
  pose proof (table_ok_built _ Hok) as Hbuilt.
  destruct Hok as (Hperm & L1 & L2 & Hon).
  assert (cards g' ≡ₚ standard_deck) as Hperm' by (by rewrite Hcards).
  assert (Forall built (cards g')) as Hbuilt'.
  { rewrite Hperm'. apply standard_deck_built. }
  unfold cards in Hbuilt, Hbuilt'. rewrite !Forall_app in Hbuilt, Hbuilt'.
  destruct Hbuilt as (B1 & B2 & _). destruct Hbuilt' as (B1' & B2' & _).
  unfold table_ok. split; [done|].
  destruct c; cbn [_BlackJackGame.onecmd] in H;
    unfold _BlackJackGame.do_stand, _BlackJackGame.do_newHand, _BlackJackGame.do_another,
      _BlackJackGame.do_EOF, _BlackJackGame.do_quit, _BlackJackGame.do_exit in H.
  - (* hit *)
    apply do_hit_inv in H as (_ & _ & Hh1 & _ & Hcase). rewrite Hh1.
    destruct Hcase as [(Hp & Hp' & Hh2 & _)|(Hp & c & Hh2 & Hcase)].
    + rewrite Hh2, Hp'. by split_and!.
    + specialize (Hon Hp). apply built_hand_total in B2.
      assert (length (Player.hand (_BlackJackGame.p2 g')) ≤ 22)%nat.
      { rewrite Hh2, length_app. cbn. lia. }
      destruct Hcase as [(Ht & Hp' & _)|(Ht & Hp' & _)]; rewrite Hp'; by split_and!.
  - (* pass *)
    apply do_pass_inv in H as (_ & p1a & s & Hdraws & _ & Hh1 & Hh2 & _ & _ & Hp' & _).
    apply dealer_draws_inv in Hdraws as (drawn & _ & Hh & _ & _ & _ & Hlow).
    rewrite Hh2, Hp'. split_and!; [|done|done].
    rewrite Hh1, Hh. rewrite Hh1, Hh in B1'.
    destruct drawn as [|x drawn _] using rev_ind; [by rewrite app_nil_r|].
    specialize (Hlow (length drawn)). rewrite length_app in Hlow. cbn in Hlow.
    rewrite take_app_length in Hlow.
    rewrite (assoc_L (++)), Forall_app in B1'. destruct B1' as [B _].
    apply built_hand_total in B. rewrite !length_app in *. cbn.
    assert (hand_total (Player.hand (_BlackJackGame.p1 g) ++ drawn) < 18)
      by (apply Hlow; lia).
    lia.
  - (* stand *)
    apply do_pass_inv in H as (_ & p1a & s & Hdraws & _ & Hh1 & Hh2 & _ & _ & Hp' & _).
    apply dealer_draws_inv in Hdraws as (drawn & _ & Hh & _ & _ & _ & Hlow).
    rewrite Hh2, Hp'. split_and!; [|done|done].
    rewrite Hh1, Hh. rewrite Hh1, Hh in B1'.
    destruct drawn as [|x drawn _] using rev_ind; [by rewrite app_nil_r|].
    specialize (Hlow (length drawn)). rewrite length_app in Hlow. cbn in Hlow.
    rewrite take_app_length in Hlow.
    rewrite (assoc_L (++)), Forall_app in B1'. destruct B1' as [B _].
    apply built_hand_total in B. rewrite !length_app in *. cbn.
    assert (hand_total (Player.hand (_BlackJackGame.p1 g) ++ drawn) < 18)
      by (apply Hlow; lia).
    lia.
  - apply do_yes_inv in H as (_ & _ & _ & _ & _ & Hcase).
    destruct Hcase as [(Hp & -> & -> & _)|(_ & c1 & c2 & c3 & c4 & Hh1 & Hh2)];
      [by split_and!; auto|].
    apply built_hand_total in B2'. rewrite Hh1, Hh2 in *. cbn [length] in *.
    split_and!; [lia|lia|]. intros _. lia.
  - apply do_yes_inv in H as (_ & _ & _ & _ & _ & Hcase).
    destruct Hcase as [(Hp & -> & -> & _)|(_ & c1 & c2 & c3 & c4 & Hh1 & Hh2)];
      [by split_and!; auto|].
    apply built_hand_total in B2'. rewrite Hh1, Hh2 in *. cbn [length] in *.
    split_and!; [lia|lia|]. intros _. lia.
  - apply do_yes_inv in H as (_ & _ & _ & _ & _ & Hcase).
    destruct Hcase as [(Hp & -> & -> & _)|(_ & c1 & c2 & c3 & c4 & Hh1 & Hh2)];
      [by split_and!; auto|].
    apply built_hand_total in B2'. rewrite Hh1, Hh2 in *. cbn [length] in *.
    split_and!; [lia|lia|]. intros _. lia.
  - apply do_no_inv in H as (_ & -> & -> & ->). by split_and!.
  - apply do_no_inv in H as (_ & -> & -> & ->). by split_and!.
  - apply do_no_inv in H as (_ & -> & -> & ->). by split_and!.
  - apply do_no_inv in H as (_ & -> & -> & ->). by split_and!.
Qed.

Lemma run_table_ok lines g b g' :
  table_ok g → _BlackJackGame.run lines g = Ok (b, g') → table_ok g'.
Proof.
  revert g. induction lines as [|c lines IH]; intros g Hok; cbn [_BlackJackGame.run].
  - by intros [= <- <-].
  - intros ([b1 g1] & H1 & H)%bind_Ok.
    pose proof (onecmd_table_ok _ _ _ _ Hok H1) as Hok1.
    destruct b1; [by injection H as <- <-|by eapply IH].
Qed.

Lemma play_table_ok r lines b g : play r lines = Ok (b, g) → table_ok g.
Proof.
  unfold play. intros (g0 & Hinit%init_table_ok & Hrun)%bind_Ok.
  by eapply run_table_ok.
Qed.

Lemma init_returns r : ∃ g, _BlackJackGame.__init__ r = Ok g.
Proof.
  unfold _BlackJackGame.__init__.
  rewrite create_unshuffled_deck_app, shuffle_deck_spec.
  cbn [CardDeck.deck CardDeck.discard CardDeck.__init__ app].
  pose proof (shuffle_Permutation standard_deck r) as Hperm.
  destruct (Random.shuffle standard_deck r) as [pile r']. cbn [fst snd] in *.
  apply start_game_returns.
  - unfold cards. game_simpl. cbn [Player.__init__ Player.hand app].
    rewrite app_nil_r, Hperm. apply built_valid, standard_deck_built.
  - game_simpl. rewrite Hperm. change (length standard_deck) with 52%nat. lia.
Qed.

Lemma do_hit_returns g : table_ok g → ∃ g', _BlackJackGame.do_hit g = Ok (false, g').
Proof.
  intros Hok. pose proof (table_ok_piles _ Hok) as Hpiles.
  pose proof (table_ok_built _ Hok) as Hbuilt.
  destruct Hok as (_ & L1 & _ & Hon).
  unfold cards in Hbuilt. rewrite !Forall_app in Hbuilt.
  destruct Hbuilt as (_ & B2 & Bd & Bdis).
  unfold _BlackJackGame.do_hit. game_simpl.
  destruct (_BlackJackGame.playing g); [|eauto].
  specialize (Hon eq_refl). pose proof (built_hand_total _ B2) as [Hlen _].
  destruct (hit_succeeds (_BlackJackGame.p2 g) (_BlackJackGame.cd g)
              (_BlackJackGame.random g)) as (c & d' & r' & -> & P); [lia|].
  game_simpl.
  assert (Forall valid_rank (Player.hand (_BlackJackGame.p2 g) ++ [c])) as Hv.
  { assert (Forall built (c :: CardDeck.deck d' ++ CardDeck.discard d')) as Hpool
      by (rewrite P; by apply Forall_app).
    apply list.Forall_cons in Hpool as [Hc _].
    apply built_valid, Forall_app. split; [done|by apply Forall_singleton]. }
  destruct (_ <=? 21); print_succeeds Hv; eauto.
Qed.

Lemma do_yes_returns g : table_ok g → ∃ g', _BlackJackGame.do_yes g = Ok (false, g').
Proof.
  intros Hok. pose proof (table_ok_piles _ Hok) as Hpiles.
  pose proof (table_ok_built _ Hok) as Hbuilt. apply built_valid in Hbuilt.
  unfold cards in Hbuilt. rewrite !Forall_app in Hbuilt.
  destruct Hbuilt as (V1 & V2 & Vd & Vdis).
  unfold _BlackJackGame.do_yes. game_simpl.
  destruct (_BlackJackGame.playing g); cbn [negb]; [eauto|].
  cbn [Player.discard]. game_simpl.
  match goal with
  | |- context [_BlackJackGame.start_game ?g0] =>
      destruct (start_game_returns g0) as [g' ->]
  end.
  - unfold cards. game_simpl. cbn [app]. rewrite !Forall_app. by split_and!.
  - game_simpl. rewrite !length_app. lia.
  - game_simpl. eauto.
Qed.

Lemma do_no_returns g : ∃ b g', _BlackJackGame.do_no g = Ok (b, g').
Proof.
  unfold _BlackJackGame.do_no.
  destruct (negb _); [eauto|]. destruct (_BlackJackGame.quitting g); eauto.
Qed.

Lemma do_pass_outcome g :
  table_ok g →
  (∃ g', _BlackJackGame.do_pass g = Ok (false, g'))
  ∨ _BlackJackGame.do_pass g = Raise IndexError.
Proof.
  intros Hok. pose proof (table_ok_built _ Hok) as Hbuilt. apply built_valid in Hbuilt.
  destruct (dealer_draws_outcome (length (CardDeck.deck (_BlackJackGame.cd g)))
              (_BlackJackGame.p1 g) (_BlackJackGame.cd g))
    as [(p' & d' & H)|[H|H]].
  - left. pose proof (dealer_draws_Ok _ _ _ _ _ H) as [_ Ht].
    specialize (Ht (Player.hand (_BlackJackGame.p2 g))).
    rewrite cards_table, <- Ht in Hbuilt. unfold table in Hbuilt.
    apply Forall_app in Hbuilt as [[s Hs]%print_friendly_hand_valid _].
    by eapply do_pass_returns.
  - right. unfold _BlackJackGame.do_pass. game_simpl. by rewrite H.
  - by apply dealer_draws_not_Diverge in H.
Qed.

(** In a state of play every command returns, except that [pass] and
    [stand] may run out of cards. *)
Lemma onecmd_returns c g :
  table_ok g →
  (∃ b g', _BlackJackGame.onecmd c g = Ok (b, g'))
  ∨ (passes c = true ∧ _BlackJackGame.onecmd c g = Raise IndexError).
Proof.
  intros Hok.
  destruct c; cbn [_BlackJackGame.onecmd passes];
    unfold _BlackJackGame.do_stand, _BlackJackGame.do_newHand, _BlackJackGame.do_another,
      _BlackJackGame.do_EOF, _BlackJackGame.do_quit, _BlackJackGame.do_exit.
  - left. destruct (do_hit_returns _ Hok) as [g' ->]. eauto.
  - destruct (do_pass_outcome _ Hok) as [[g' ->]| ->]; eauto.
  - destruct (do_pass_outcome _ Hok) as [[g' ->]| ->]; eauto.
  - left. destruct (do_yes_returns _ Hok) as [g' ->]. eauto.
  - left. destruct (do_yes_returns _ Hok) as [g' ->]. eauto.
  - left. destruct (do_yes_returns _ Hok) as [g' ->]. eauto.
  - left. apply do_no_returns.
  - left. apply do_no_returns.
  - left. apply do_no_returns.
  - left. apply do_no_returns.
Qed.

Lemma run_outcome lines g :
  table_ok g →
  (∃ b g', _BlackJackGame.run lines g = Ok (b, g'))
  ∨ (_BlackJackGame.run lines g = Raise IndexError
     ∧ ∃ before c after g',
         lines = before ++ c :: after
         ∧ passes c = true
         ∧ _BlackJackGame.run before g = Ok (false, g')
         ∧ _BlackJackGame.onecmd c g' = Raise IndexError).
Proof.
  revert g. induction lines as [|c lines IH]; intros g Hok; cbn [_BlackJackGame.run].
  - left. eauto.
  - destruct (onecmd_returns c g Hok) as [(b & g1 & H1)|[Hc H1]].
    + rewrite H1. game_simpl. destruct b; [left; eauto|].
      pose proof (onecmd_table_ok _ _ _ _ Hok H1) as Hok1.
      destruct (IH g1 Hok1) as [?|(Hrun & before & c' & after & g' & -> & Hc' & Hb & Hfail)];
        [by left|].
      right. split; [done|]. exists (c :: before), c', after, g'.
      split_and!; [done|done| |done].
      cbn [_BlackJackGame.run]. rewrite H1. game_simpl. exact Hb.
    + rewrite H1. right. split; [done|]. by exists [], c, lines, g.
Qed.

(** X20.  After any commands that returned, from a new game: the dealer
    holds 18 cards at most and the player 22 at most, the player's total is
    21 or less while a round is on, the two piles hold 12 cards or more,
    and every command typed next returns, except that [pass] and [stand]
    may raise the error of a pop from an empty list. *)
Theorem play_stays_playable (r : Random.t) (lines : list _BlackJackGame.command)
    (b : _BlackJackGame.stop) (g : _BlackJackGame.t) :
  play r lines = Ok (b, g) →
  (length (Player.hand (_BlackJackGame.p1 g)) ≤ 18)%nat
  ∧ (length (Player.hand (_BlackJackGame.p2 g)) ≤ 22)%nat
  ∧ (_BlackJackGame.playing g = true → Player.total_hand (_BlackJackGame.p2 g) ≤ 21)
  ∧ (12 ≤ length (CardDeck.deck (_BlackJackGame.cd g))
          + length (CardDeck.discard (_BlackJackGame.cd g)))%nat
  ∧ ∀ c,
      (∃ b' g', _BlackJackGame.onecmd c g = Ok (b', g'))
      ∨ (passes c = true ∧ _BlackJackGame.onecmd c g = Raise IndexError).
Proof.
  intros Hok%play_table_ok. pose proof (table_ok_piles _ Hok) as Hpiles.
  pose proof Hok as (_ & L1 & L2 & Hon).
  split_and!; [done|done| |lia|].
  - intros Hp. rewrite total_hand_hand_total. by apply Hon.
  - intros c. by apply onecmd_returns.
Qed.

Lemma play_stays_playable_witness :
  ∃ g,
    play tape0 [_BlackJackGame.hit] = Ok (false, g)
    ∧ (12 ≤ length (CardDeck.deck (_BlackJackGame.cd g))
            + length (CardDeck.discard (_BlackJackGame.cd g)))%nat
    ∧ ∃ b' g', _BlackJackGame.onecmd _BlackJackGame.hit g = Ok (b', g').
Proof.
  destruct (play tape0 [_BlackJackGame.hit]) as [[b g]| |] eqn:E;
    [|by vm_compute in E..].
  destruct (play_stays_playable _ _ _ _ E) as (_ & _ & _ & Hpiles & Hall).
  assert (b = false) as -> by (vm_compute in E; congruence).
  exists g. split_and!; [done|done|].
  destruct (Hall _BlackJackGame.hit) as [H|[Hc _]]; [exact H|discriminate Hc].
Defined.

(** X21.  A game played by commands either returns or stops with the error
    of a pop from an empty list, and then at a [pass] or a [stand]: the
    commands before it returned without ending the loop, and the dealer ran
    out of cards to draw.  No other error arises and no loop runs on. *)
Theorem play_fails_only_at_pass (r : Random.t) (lines : list _BlackJackGame.command) :
  (∃ b g, play r lines = Ok (b, g))
  ∨ (play r lines = Raise IndexError
     ∧ ∃ before c after g,
         lines = before ++ c :: after
         ∧ passes c = true
         ∧ play r before = Ok (false, g)
         ∧ _BlackJackGame.onecmd c g = Raise IndexError).
Proof.
  unfold play. destruct (init_returns r) as [g0 H0]. rewrite H0. game_simpl.
  apply run_outcome. by eapply init_table_ok.
Qed.

(** X22.  A game in which [pass] and [stand] are never typed always
    returns: [hit], [yes], [newHand], [another], [no], [quit], [exit] and
    [EOF] never fail, however many times and in whatever order. *)
Theorem play_without_pass_returns (r : Random.t) (lines : list _BlackJackGame.command) :
  Forall (λ c, passes c = false) lines →
  ∃ b g, play r lines = Ok (b, g).
Proof.
  intros Hlines. unfold play. destruct (init_returns r) as [g0 H0].
  rewrite H0. game_simpl.
  destruct (run_outcome lines g0) as [H|(_ & before & c & after & g' & -> & Hc & _)];
    [by eapply init_table_ok|exact H|].
  apply Forall_app in Hlines as [_ Hlines].
  apply list.Forall_cons in Hlines as [Hc' _]. congruence.
Qed.

Lemma play_without_pass_returns_witness :
  ∃ b g,
    play tape0 [_BlackJackGame.hit; _BlackJackGame.hit; _BlackJackGame.yes;
                _BlackJackGame.no; _BlackJackGame.quit] = Ok (b, g).
Proof.
  apply play_without_pass_returns. repeat constructor.
Defined.

(** ** What is printed *)

Lemma start_game_prints g g' :
  _BlackJackGame.start_game g = Ok g' →
  ∃ out, _BlackJackGame.stdout g' = _BlackJackGame.stdout g ++ out ∧ length out = 6%nat.
Proof.
  unfold _BlackJackGame.start_game. intros H.
  apply bind_Ok in H as ([[p1a cda] ra] & _ & H).
  apply bind_Ok in H as ([[p2a cdb] rb] & _ & H).
  apply bind_Ok in H as ([[p1b cdc] rc] & _ & H).
  apply bind_Ok in H as ([[p2b cdd] rd] & _ & H).
  apply bind_Ok in H as (ga & [sa ->]%print_hand_Ok & H).
  apply bind_Ok in H as (gb & [sb ->]%print_hand_Ok & H).
  injection H as <-. game_simpl.
  eexists. split; [rewrite <- !(assoc_L (++)); reflexivity|reflexivity].
Qed.

Ltac printed :=
  game_simpl; eexists; (split; [rewrite <- ?(assoc_L (++)); reflexivity|reflexivity]).

(** X23.  A command that returns adds lines to what was printed and alters
    none of the lines before: [hit] adds one line when no round is on,
    three when the round goes on and four when the player goes bust;
    [pass] and [stand] add five; [yes], [newHand] and [another] add six
    when they deal and one when a round is on; [no], [quit], [exit] and
    [EOF] add four when they end the loop and one when they warn. *)
Theorem commands_print (c : _BlackJackGame.command) (g g' : _BlackJackGame.t)
    (b : _BlackJackGame.stop) :
  _BlackJackGame.onecmd c g = Ok (b, g') →
  ∃ out,
    _BlackJackGame.stdout g' = _BlackJackGame.stdout g ++ out
    ∧ length out =
        match c with
        | _BlackJackGame.hit =>
            if _BlackJackGame.playing g
            then (if _BlackJackGame.playing g' then 3 else 4)
            else 1
        | _BlackJackGame.pass | _BlackJackGame.stand => 5
        | _BlackJackGame.yes | _BlackJackGame.newHand | _BlackJackGame.another =>
            if _BlackJackGame.playing g then 1 else 6
        | _ => if b then 4 else 1
        end%nat.
Proof.
  assert (_BlackJackGame.do_pass g = Ok (b, g') →
          ∃ out, _BlackJackGame.stdout g' = _BlackJackGame.stdout g ++ out
                 ∧ length out = 5%nat) as Hpass.
  { unfold _BlackJackGame.do_pass. game_simpl. intros H.
    apply bind_Ok in H as ([p1a cda] & _ & H). game_simpl.
    apply bind_Ok in H as (ga & [sa ->]%print_hand_Ok & H). game_simpl.
    destruct (_ >? 21); [destruct (_ >? 21)|
      destruct (_ >=? _); [|destruct (_ <=? 21)]];
      injection H as <- <-; printed. }
  assert (_BlackJackGame.do_yes g = Ok (b, g') →
          ∃ out, _BlackJackGame.stdout g' = _BlackJackGame.stdout g ++ out
                 ∧ length out = if _BlackJackGame.playing g then 1%nat else 6%nat)
    as Hyes.
  { unfold _BlackJackGame.do_yes. game_simpl.
    destruct (_BlackJackGame.playing g); cbn [negb].
    - intros [= <- <-]. printed.
    - cbn [Player.discard]. game_simpl.
      intros (ga & (out & Hout & Hlen)%start_game_prints & [= <- <-])%bind_Ok.
      game_simpl. by exists out. }
  assert (_BlackJackGame.do_no g = Ok (b, g') →
          ∃ out, _BlackJackGame.stdout g' = _BlackJackGame.stdout g ++ out
                 ∧ length out = if b then 4%nat else 1%nat) as Hno.
  { unfold _BlackJackGame.do_no.
    destruct (_BlackJackGame.playing g), (_BlackJackGame.quitting g); cbn [negb];
      intros [= <- <-]; printed. }
  destruct c; cbn [_BlackJackGame.onecmd];
    unfold _BlackJackGame.do_stand, _BlackJackGame.do_newHand, _BlackJackGame.do_another,
      _BlackJackGame.do_EOF, _BlackJackGame.do_quit, _BlackJackGame.do_exit;
    try assumption.
  unfold _BlackJackGame.do_hit. game_simpl.
  destruct (_BlackJackGame.playing g) eqn:Hp.
  - intros H. apply bind_Ok in H as ([[p2a cda] ra] & _ & H). game_simpl.
    destruct (_ <=? 21);
      apply bind_Ok in H as (ga & [sa ->]%print_hand_Ok & H);
      injection H as <- <-; game_simpl; rewrite ?Hp; printed.
  - intros [= <- <-]. printed.
Qed.

Lemma commands_print_witness :
  ∃ g' out,
    _BlackJackGame.onecmd _BlackJackGame.stand round0 = Ok (false, g')
    ∧ _BlackJackGame.stdout g' = _BlackJackGame.stdout round0 ++ out
    ∧ length out = 5%nat.
Proof.
  destruct (_BlackJackGame.onecmd _BlackJackGame.stand round0) as [[b g']| |] eqn:E;
    [|by vm_compute in E..].
  destruct (commands_print _ _ _ _ E) as (out & Hout & Hlen).
  assert (b = false) as -> by (vm_compute in E; congruence).
  by exists g', out.
Defined.
